(** * PhoneQrScanner: the phone extractor and the scanner session

    A shallow embedding of [src/PhoneQrScanner.tsx]: the regular
    expressions of [extractPhoneNumber] with the backtracking semantics of
    ECMAScript, the extractor itself, and the handlers of the component
    ([scanVideoFrame], [stopScanning], [handleFileSelect], [sendSms],
    [requestCameraPermission]) as functions on the component state with an
    explicit trace of the effects they request from the browser. *)

From Stdlib Require Import String Ascii List NArith Arith Bool Lia.
Import ListNotations.

(** ** JavaScript strings

    A JavaScript string is a sequence of UTF-16 code units. *)

Definition char := N.
Definition jsstring := list char.

Fixpoint js (s : string) : jsstring :=
  match s with
  | EmptyString => []
  | String a s' => N_of_ascii a :: js s'
  end.

Arguments js s%_string.

Definition ch (a : ascii) : char := N_of_ascii a.
Arguments ch a%_char.

Definition isDigit (c : char) : bool := (48 <=? c)%N && (c <=? 57)%N.

(** [WhiteSpace] and [LineTerminator] of ECMAScript: what [\s] matches and
    what [String.prototype.trim] removes. *)
Definition isSpace (c : char) : bool :=
  ((9 <=? c) && (c <=? 13) || (c =? 32) || (c =? 160) || (c =? 5760)
   || (8192 <=? c) && (c <=? 8202) || (c =? 8232) || (c =? 8233)
   || (c =? 8239) || (c =? 8287) || (c =? 12288) || (c =? 65279))%N.

Fixpoint jseqb (a b : jsstring) : bool :=
  match a, b with
  | [], [] => true
  | x :: a', y :: b' => (x =? y)%N && jseqb a' b'
  | _, _ => false
  end.

Fixpoint startsWith (s p : jsstring) {struct p} : bool :=
  match p, s with
  | [], _ => true
  | x :: p', y :: s' => (x =? y)%N && startsWith s' p'
  | _ :: _, [] => false
  end.

(** [s.substring(n)] for [0 <= n]. *)
Definition substring_from (n : nat) (s : jsstring) : jsstring := skipn n s.

(** [s.substring(0, n)]. *)
Definition substring_to (n : nat) (s : jsstring) : jsstring := firstn n s.

Fixpoint trimStart (s : jsstring) : jsstring :=
  match s with
  | c :: s' => if isSpace c then trimStart s' else s
  | [] => []
  end.

Definition trimEnd (s : jsstring) : jsstring := rev (trimStart (rev s)).

Definition trim (s : jsstring) : jsstring := trimEnd (trimStart s).

(** ** Regular expressions

    The fragment of ECMAScript patterns the component uses: character
    classes, greedy bounded and unbounded repetition of a class, an
    optional group, alternation and sequence. *)

Inductive citem : Type :=
| CChar (c : char)          (* a literal character *)
| CRange (lo hi : char)     (* lo-hi *)
| CDigit                    (* \d *)
| CSpace.                   (* \s *)

Definition cclass := list citem.

Inductive regex : Type :=
| Eps
| Atom (a : cclass)
| Rep (a : cclass) (lo : nat) (hi : option nat)
| Opt (r : regex)
| Alt (r1 r2 : regex)
| Seq (r1 r2 : regex).

(** [Canonicalize] of a non-Unicode, ignore-case pattern: a code unit is
    mapped to its upper case unless that leaves ASCII or enters it; on the
    ASCII letters this is the usual folding, and no code unit from 128 on
    is identified with an ASCII one. *)
Definition canonicalize (ignoreCase : bool) (c : char) : char :=
  if ignoreCase && (97 <=? c)%N && (c <=? 122)%N then (c - 32)%N else c.

Definition in_item (ic : bool) (c : char) (i : citem) : bool :=
  match i with
  | CChar x => (canonicalize ic x =? canonicalize ic c)%N
  | CRange lo hi => (lo <=? c)%N && (c <=? hi)%N
  | CDigit => isDigit c
  | CSpace => isSpace c
  end.

Definition in_class (ic : bool) (a : cclass) (c : char) : bool :=
  existsb (in_item ic c) a.

(** The matcher is written in continuation-passing style, as the
    specification of ECMAScript is: a continuation receives the number of
    code units consumed so far and the rest of the input, and the first
    alternative whose continuation succeeds wins.  A repetition is greedy;
    an optional group that matches the empty string counts as skipped. *)
Definition cont := nat -> jsstring -> option nat.

Fixpoint rep (p : char -> bool) (lo : nat) (hi : option nat)
         (n : nat) (s : jsstring) (k : cont) : option nat :=
  let stop := match lo with 0 => k n s | S _ => None end in
  match hi with
  | Some 0 => stop
  | _ =>
    match s with
    | c :: s' =>
      if p c then
        match rep p (pred lo) (option_map pred hi) (S n) s' k with
        | Some e => Some e
        | None => stop
        end
      else stop
    | [] => stop
    end
  end.

Fixpoint bt (ic : bool) (r : regex) (n : nat) (s : jsstring) (k : cont)
  : option nat :=
  match r with
  | Eps => k n s
  | Atom a =>
    match s with
    | c :: s' => if in_class ic a c then k (S n) s' else None
    | [] => None
    end
  | Rep a lo hi => rep (in_class ic a) lo hi n s k
  | Opt r1 =>
    match bt ic r1 n s
             (fun n' s' => if n' =? n then None else k n' s') with
    | Some e => Some e
    | None => k n s
    end
  | Alt r1 r2 =>
    match bt ic r1 n s k with
    | Some e => Some e
    | None => bt ic r2 n s k
    end
  | Seq r1 r2 => bt ic r1 n s (fun n' s' => bt ic r2 n' s' k)
  end.

(** A match attempt at the start of [s]: the length of the match. *)
Definition exec_at (ic : bool) (r : regex) (s : jsstring) : option nat :=
  bt ic r 0 s (fun n _ => Some n).

(** [String.prototype.match] with a global pattern: the successive
    leftmost matches; after a match the search resumes at its end, one
    code unit further when the match was empty.  [skip] counts the code
    units of the current match still to be passed. *)
Fixpoint match_all (ic : bool) (r : regex) (skip : nat) (s : jsstring)
  {struct s} : list jsstring :=
  match skip with
  | S m =>
    match s with
    | [] => []
    | _ :: s' => match_all ic r m s'
    end
  | 0 =>
    match exec_at ic r s with
    | Some len =>
      firstn len s ::
        match s with
        | [] => []
        | _ :: s' => match_all ic r (pred len) s'
        end
    | None =>
      match s with
      | [] => []
      | _ :: s' => match_all ic r 0 s'
      end
    end
  end.

(** [text.match(pattern)]: [null] when there is no match. *)
Definition js_match (ic : bool) (r : regex) (text : jsstring)
  : option (list jsstring) :=
  match match_all ic r 0 text with
  | [] => None
  | ms => Some ms
  end.

(** [s.replace(/^r/, '')] for a pattern anchored at the start. *)
Definition replace_anchored (ic : bool) (r : regex) (s : jsstring)
  : jsstring :=
  match exec_at ic r s with
  | Some len => skipn len s
  | None => s
  end.

(** [s.replace(/[^\d]/g, '')]. *)
Definition strip_non_digits (s : jsstring) : jsstring := filter isDigit s.

(** ** The patterns of [extractPhoneNumber] *)

Definition lit (s : string) : regex :=
  fold_right (fun c r => Seq (Atom [CChar c]) r) Eps (js s).
Arguments lit s%_string.

Definition seqs (rs : list regex) : regex := fold_right Seq Eps rs.

Definition sep : cclass := [CChar (ch "-"); CChar (ch "."); CSpace].
Definition d09 : cclass := [CRange (ch "0") (ch "9")].

(** [(\+\d{1,3}[-.\s]?)?] *)
Definition country : regex :=
  Opt (seqs [Atom [CChar (ch "+")]; Rep [CDigit] 1 (Some 3);
             Rep sep 0 (Some 1)]).

(** [/(\+\d{1,3}[-.\s]?)?\(?[0-9]{3}\)?[-.\s]?[0-9]{3}[-.\s]?[0-9]{4}/g] *)
Definition pat_standard : regex :=
  seqs [country; Rep [CChar (ch "(")] 0 (Some 1); Rep d09 3 (Some 3);
        Rep [CChar (ch ")")] 0 (Some 1); Rep sep 0 (Some 1);
        Rep d09 3 (Some 3); Rep sep 0 (Some 1); Rep d09 4 (Some 4)].

(** [/(\+\d{1,3}[-.\s]?)?[0-9]{10,15}/g] *)
Definition pat_international : regex :=
  seqs [country; Rep d09 10 (Some 15)].

(** [/(\+\d{1,3}[-.\s]?)?\d{4}[-.\s]?\d{3}[-.\s]?\d{3}/g] *)
Definition pat_alternative : regex :=
  seqs [country; Rep [CDigit] 4 (Some 4); Rep sep 0 (Some 1);
        Rep [CDigit] 3 (Some 3); Rep sep 0 (Some 1);
        Rep [CDigit] 3 (Some 3)].

(** [/(\+\d{1,3}[-.\s]?)?\d{3}[-.\s]?\d{4}[-.\s]?\d{4}/g] *)
Definition pat_another : regex :=
  seqs [country; Rep [CDigit] 3 (Some 3); Rep sep 0 (Some 1);
        Rep [CDigit] 4 (Some 4); Rep sep 0 (Some 1);
        Rep [CDigit] 4 (Some 4)].

(** [[0-9\-\s\(\)]] *)
Definition telbody : cclass :=
  [CRange (ch "0") (ch "9"); CChar (ch "-"); CSpace; CChar (ch "(");
   CChar (ch ")")].

(** [/tel:\+?[0-9\-\s\(\)]+/gi] *)
Definition pat_tel : regex :=
  seqs [lit "tel:"; Rep [CChar (ch "+")] 0 (Some 1); Rep telbody 1 None].

(** [/phone:\+?[0-9\-\s\(\)]+/gi] *)
Definition pat_phone : regex :=
  seqs [lit "phone:"; Rep [CChar (ch "+")] 0 (Some 1); Rep telbody 1 None].

(** A pattern with its [i] flag; all six carry [g]. *)
Definition phonePatterns : list (bool * regex) :=
  [ (false, pat_standard); (false, pat_international);
    (false, pat_alternative); (false, pat_another);
    (true, pat_tel); (true, pat_phone) ].

(** [/^(tel:|phone:)/i] *)
Definition pat_prefix : regex := Alt (lit "tel:") (lit "phone:").

(** ** [extractPhoneNumber] *)

Definition plus : char := ch "+".

(** [phone.replace(/^\+/, '')]. *)
Definition drop_plus (s : jsstring) : jsstring :=
  match s with
  | c :: s' => if (c =? plus)%N then s' else s
  | [] => []
  end.

(** The body of the inner loop for one match: [Some] is a [return]. *)
Definition candidate (m : jsstring) : option jsstring :=
  let phone := trim (replace_anchored true pat_prefix m) in
  let hasPlus := startsWith phone [plus] in
  let phone :=
    if hasPlus then plus :: strip_non_digits (substring_from 1 phone)
    else strip_non_digits phone in
  let digitCount := length (drop_plus phone) in
  if (10 <=? digitCount) && (digitCount <=? 15) then
    if hasPlus then Some phone
    else if 11 <=? digitCount then Some (plus :: phone)
    else Some phone
  else None.

(** [for (const match of matches)]. *)
Fixpoint first_candidate (ms : list jsstring) : option jsstring :=
  match ms with
  | [] => None
  | m :: ms' =>
    match candidate m with
    | Some p => Some p
    | None => first_candidate ms'
    end
  end.

(** [for (const pattern of phonePatterns)]. *)
Fixpoint scan_patterns (ps : list (bool * regex)) (text : jsstring)
  : option jsstring :=
  match ps with
  | [] => None
  | (ic, r) :: ps' =>
    match js_match ic r text with
    | Some ms =>
      match first_candidate ms with
      | Some p => Some p
      | None => scan_patterns ps' text
      end
    | None => scan_patterns ps' text
    end
  end.

(** The fallback after the loops. *)
Definition fallback (text : jsstring) : option jsstring :=
  let digitSequence := strip_non_digits text in
  if (10 <=? length digitSequence) && (length digitSequence <=? 15) then
    if 11 <=? length digitSequence then Some (plus :: digitSequence)
    else Some digitSequence
  else None.

Definition extractPhoneNumber (text : jsstring) : option jsstring :=
  match scan_patterns phonePatterns text with
  | Some p => Some p
  | None => fallback text
  end.

(** ** Measures and predicates of the proofs about the extractor *)

(** The least number of code units a pattern consumes. *)
Fixpoint min_len (r : regex) : nat :=
  match r with
  | Eps => 0
  | Atom _ => 1
  | Rep _ lo _ => lo
  | Opt _ => 0
  | Alt r1 r2 => Nat.min (min_len r1) (min_len r2)
  | Seq r1 r2 => min_len r1 + min_len r2
  end.

(** A successful match hands its continuation a suffix of the input. *)
Definition consumed (n : nat) (s : jsstring) (k : cont) (e : nat)
           (least : nat) : Prop :=
  exists pre s', s = pre ++ s' /\ least <= length pre /\
                 k (n + length pre) s' = Some e.

(** A string of digits only. *)
Definition digits (s : jsstring) : bool := forallb isDigit s.

(** What one candidate made of digits only becomes. *)
Definition shape (plusFirst : bool) (d : jsstring) : option jsstring :=
  if (10 <=? length d) && (length d <=? 15) then
    if plusFirst || (11 <=? length d) then Some (plus :: d) else Some d
  else None.

(** The candidate [j] of pattern [i] validates to [p]. *)
Definition validates_at (ps : list (bool * regex)) (text : jsstring)
           (i j : nat) (p : jsstring) : Prop :=
  exists ic r ms m,
    nth_error ps i = Some (ic, r) /\ js_match ic r text = Some ms /\
    nth_error ms j = Some m /\ candidate m = Some p.

(** The candidate [j] of pattern [i], if there is one, is rejected. *)
Definition rejected_at (ps : list (bool * regex)) (text : jsstring)
           (i j : nat) : Prop :=
  forall ic r ms m,
    nth_error ps i = Some (ic, r) -> js_match ic r text = Some ms ->
    nth_error ms j = Some m -> candidate m = None.

(** [p] is the first validated candidate, patterns in their order and the
    matches of one pattern in theirs. *)
Definition first_validated (ps : list (bool * regex)) (text : jsstring)
           (p : jsstring) : Prop :=
  exists i j,
    validates_at ps text i j p /\
    (forall j', j' < j -> rejected_at ps text i j') /\
    (forall i' j', i' < i -> rejected_at ps text i' j').

(** No candidate of any pattern validates. *)
Definition none_validated (ps : list (bool * regex)) (text : jsstring)
  : Prop :=
  forall i j, rejected_at ps text i j.

(** The invariant of a phone candidate: digits, possibly after one [+],
    ten to fifteen of them. *)
Definition PhoneCandidate (p : jsstring) : bool :=
  let d := drop_plus p in
  digits d && (10 <=? length d) && (length d <=? 15).

(** ** [encodeURIComponent]

    Code units outside the unreserved set are replaced by the escaped
    octets of the UTF-8 encoding of their code point; an unpaired
    surrogate raises [URIError], here [None]. *)

Definition isAlpha (c : char) : bool :=
  ((65 <=? c) && (c <=? 90) || (97 <=? c) && (c <=? 122))%N.

Definition uriUnreserved (c : char) : bool :=
  isAlpha c || isDigit c
  || existsb (N.eqb c) (js "-_.!~*'()").

Definition hexDigit (n : N) : char :=
  (if n <? 10 then 48 + n else 55 + n)%N.

Definition escapeOctet (b : N) : jsstring :=
  [ch "%"; hexDigit (b / 16); hexDigit (b mod 16)]%N.

Definition utf8 (cp : N) : list N :=
  (if cp <? 128 then [cp]
   else if cp <? 2048 then [192 + cp / 64; 128 + cp mod 64]
   else if cp <? 65536 then
     [224 + cp / 4096; 128 + (cp / 64) mod 64; 128 + cp mod 64]
   else
     [240 + cp / 262144; 128 + (cp / 4096) mod 64;
      128 + (cp / 64) mod 64; 128 + cp mod 64])%N.

Definition escapeCodePoint (cp : N) : jsstring :=
  concat (map escapeOctet (utf8 cp)).

Definition isLeadSurrogate (c : char) : bool :=
  ((55296 <=? c) && (c <=? 56319))%N.

Definition isTrailSurrogate (c : char) : bool :=
  ((56320 <=? c) && (c <=? 57343))%N.

Fixpoint encodeURIComponent (s : jsstring) : option jsstring :=
  match s with
  | [] => Some []
  | c :: s' =>
    if uriUnreserved c then option_map (cons c) (encodeURIComponent s')
    else if isLeadSurrogate c then
      match s' with
      | c2 :: s'' =>
        if isTrailSurrogate c2 then
          option_map
            (app (escapeCodePoint
                    ((c - 55296) * 1024 + (c2 - 56320) + 65536)%N))
            (encodeURIComponent s'')
        else None
      | [] => None
      end
    else if isTrailSurrogate c then None
    else option_map (app (escapeCodePoint c)) (encodeURIComponent s')
  end.

(** ** The component: state, refs and requested effects *)

Inductive PermissionState : Type := unknown | granted | denied | prompt.

(** A media stream and a timer are known by their handles. *)
Definition MediaStream := N.

Inductive Inversion : Type := dontInvert | attemptBoth.

Record File : Type := mkFile { fileName : jsstring; fileType : jsstring }.

Record DOMException : Type :=
  mkError { errName : jsstring; errMessage : jsstring }.

(** What a handler asks of the browser, and the state setters a claim
    counts, in the order of the calls. *)
Inductive Effect : Type :=
| GetUserMedia
| ClearInterval (id : N)
| SetInterval (id : N) (ms : N)
| StopTracks (stream : MediaStream)
| Decode (mode : Inversion)                  (* a call of jsQR *)
| SetPhoneNumber (p : jsstring)
| SetError (e : jsstring)
| ProcessFileUpload (f : File)
| Navigate (url : jsstring)                  (* window.location.href = url *)
| SetTimeout (ms : N).

Record World : Type := mkWorld {
  (* useState *)
  phoneNumber : jsstring;
  scanned : bool;
  error : jsstring;
  isScanning : bool;
  permissionState : PermissionState;
  isProcessingFile : bool;
  lastScannedContent : jsstring;
  smsMessage : jsstring;
  isSendingSms : bool;
  smsAttempted : bool;
  (* useRef *)
  scanIntervalRef : option N;
  streamRef : option MediaStream;
  videoSrcObject : option MediaStream;
  (* the browser: the intervals that still fire, and the calls made *)
  timers : list N;
  trace : list Effect
}.

Definition initial : World :=
  {| phoneNumber := []; scanned := false; error := []; isScanning := false;
     permissionState := unknown; isProcessingFile := false;
     lastScannedContent := []; smsMessage := []; isSendingSms := false;
     smsAttempted := false; scanIntervalRef := None; streamRef := None;
     videoSrcObject := None; timers := []; trace := [] |}.

Definition log (e : Effect) (w : World) : World :=
  {| phoneNumber := phoneNumber w; scanned := scanned w; error := error w;
     isScanning := isScanning w; permissionState := permissionState w;
     isProcessingFile := isProcessingFile w;
     lastScannedContent := lastScannedContent w;
     smsMessage := smsMessage w; isSendingSms := isSendingSms w;
     smsAttempted := smsAttempted w; scanIntervalRef := scanIntervalRef w;
     streamRef := streamRef w; videoSrcObject := videoSrcObject w;
     timers := timers w; trace := trace w ++ [e] |}.

Definition setPhoneNumber (p : jsstring) (w : World) : World :=
  log (SetPhoneNumber p)
  {| phoneNumber := p; scanned := scanned w; error := error w;
     isScanning := isScanning w; permissionState := permissionState w;
     isProcessingFile := isProcessingFile w;
     lastScannedContent := lastScannedContent w;
     smsMessage := smsMessage w; isSendingSms := isSendingSms w;
     smsAttempted := smsAttempted w; scanIntervalRef := scanIntervalRef w;
     streamRef := streamRef w; videoSrcObject := videoSrcObject w;
     timers := timers w; trace := trace w |}.

Definition setScanned (b : bool) (w : World) : World :=
  {| phoneNumber := phoneNumber w; scanned := b; error := error w;
     isScanning := isScanning w; permissionState := permissionState w;
     isProcessingFile := isProcessingFile w;
     lastScannedContent := lastScannedContent w;
     smsMessage := smsMessage w; isSendingSms := isSendingSms w;
     smsAttempted := smsAttempted w; scanIntervalRef := scanIntervalRef w;
     streamRef := streamRef w; videoSrcObject := videoSrcObject w;
     timers := timers w; trace := trace w |}.

Definition setError (e : jsstring) (w : World) : World :=
  log (SetError e)
  {| phoneNumber := phoneNumber w; scanned := scanned w; error := e;
     isScanning := isScanning w; permissionState := permissionState w;
     isProcessingFile := isProcessingFile w;
     lastScannedContent := lastScannedContent w;
     smsMessage := smsMessage w; isSendingSms := isSendingSms w;
     smsAttempted := smsAttempted w; scanIntervalRef := scanIntervalRef w;
     streamRef := streamRef w; videoSrcObject := videoSrcObject w;
     timers := timers w; trace := trace w |}.

Definition setIsScanning (b : bool) (w : World) : World :=
  {| phoneNumber := phoneNumber w; scanned := scanned w; error := error w;
     isScanning := b; permissionState := permissionState w;
     isProcessingFile := isProcessingFile w;
     lastScannedContent := lastScannedContent w;
     smsMessage := smsMessage w; isSendingSms := isSendingSms w;
     smsAttempted := smsAttempted w; scanIntervalRef := scanIntervalRef w;
     streamRef := streamRef w; videoSrcObject := videoSrcObject w;
     timers := timers w; trace := trace w |}.

Definition setPermissionState (p : PermissionState) (w : World) : World :=
  {| phoneNumber := phoneNumber w; scanned := scanned w; error := error w;
     isScanning := isScanning w; permissionState := p;
     isProcessingFile := isProcessingFile w;
     lastScannedContent := lastScannedContent w;
     smsMessage := smsMessage w; isSendingSms := isSendingSms w;
     smsAttempted := smsAttempted w; scanIntervalRef := scanIntervalRef w;
     streamRef := streamRef w; videoSrcObject := videoSrcObject w;
     timers := timers w; trace := trace w |}.

Definition setIsProcessingFile (b : bool) (w : World) : World :=
  {| phoneNumber := phoneNumber w; scanned := scanned w; error := error w;
     isScanning := isScanning w; permissionState := permissionState w;
     isProcessingFile := b;
     lastScannedContent := lastScannedContent w;
     smsMessage := smsMessage w; isSendingSms := isSendingSms w;
     smsAttempted := smsAttempted w; scanIntervalRef := scanIntervalRef w;
     streamRef := streamRef w; videoSrcObject := videoSrcObject w;
     timers := timers w; trace := trace w |}.

Definition setLastScannedContent (s : jsstring) (w : World) : World :=
  {| phoneNumber := phoneNumber w; scanned := scanned w; error := error w;
     isScanning := isScanning w; permissionState := permissionState w;
     isProcessingFile := isProcessingFile w;
     lastScannedContent := s;
     smsMessage := smsMessage w; isSendingSms := isSendingSms w;
     smsAttempted := smsAttempted w; scanIntervalRef := scanIntervalRef w;
     streamRef := streamRef w; videoSrcObject := videoSrcObject w;
     timers := timers w; trace := trace w |}.

Definition setSmsMessage (s : jsstring) (w : World) : World :=
  {| phoneNumber := phoneNumber w; scanned := scanned w; error := error w;
     isScanning := isScanning w; permissionState := permissionState w;
     isProcessingFile := isProcessingFile w;
     lastScannedContent := lastScannedContent w;
     smsMessage := s; isSendingSms := isSendingSms w;
     smsAttempted := smsAttempted w; scanIntervalRef := scanIntervalRef w;
     streamRef := streamRef w; videoSrcObject := videoSrcObject w;
     timers := timers w; trace := trace w |}.

Definition setIsSendingSms (b : bool) (w : World) : World :=
  {| phoneNumber := phoneNumber w; scanned := scanned w; error := error w;
     isScanning := isScanning w; permissionState := permissionState w;
     isProcessingFile := isProcessingFile w;
     lastScannedContent := lastScannedContent w;
     smsMessage := smsMessage w; isSendingSms := b;
     smsAttempted := smsAttempted w; scanIntervalRef := scanIntervalRef w;
     streamRef := streamRef w; videoSrcObject := videoSrcObject w;
     timers := timers w; trace := trace w |}.

Definition setSmsAttempted (b : bool) (w : World) : World :=
  {| phoneNumber := phoneNumber w; scanned := scanned w; error := error w;
     isScanning := isScanning w; permissionState := permissionState w;
     isProcessingFile := isProcessingFile w;
     lastScannedContent := lastScannedContent w;
     smsMessage := smsMessage w; isSendingSms := isSendingSms w;
     smsAttempted := b; scanIntervalRef := scanIntervalRef w;
     streamRef := streamRef w; videoSrcObject := videoSrcObject w;
     timers := timers w; trace := trace w |}.

Definition setScanIntervalRef (r : option N) (w : World) : World :=
  {| phoneNumber := phoneNumber w; scanned := scanned w; error := error w;
     isScanning := isScanning w; permissionState := permissionState w;
     isProcessingFile := isProcessingFile w;
     lastScannedContent := lastScannedContent w;
     smsMessage := smsMessage w; isSendingSms := isSendingSms w;
     smsAttempted := smsAttempted w; scanIntervalRef := r;
     streamRef := streamRef w; videoSrcObject := videoSrcObject w;
     timers := timers w; trace := trace w |}.

Definition setStreamRef (r : option MediaStream) (w : World) : World :=
  {| phoneNumber := phoneNumber w; scanned := scanned w; error := error w;
     isScanning := isScanning w; permissionState := permissionState w;
     isProcessingFile := isProcessingFile w;
     lastScannedContent := lastScannedContent w;
     smsMessage := smsMessage w; isSendingSms := isSendingSms w;
     smsAttempted := smsAttempted w; scanIntervalRef := scanIntervalRef w;
     streamRef := r; videoSrcObject := videoSrcObject w;
     timers := timers w; trace := trace w |}.

Definition setVideoSrcObject (r : option MediaStream) (w : World) : World :=
  {| phoneNumber := phoneNumber w; scanned := scanned w; error := error w;
     isScanning := isScanning w; permissionState := permissionState w;
     isProcessingFile := isProcessingFile w;
     lastScannedContent := lastScannedContent w;
     smsMessage := smsMessage w; isSendingSms := isSendingSms w;
     smsAttempted := smsAttempted w; scanIntervalRef := scanIntervalRef w;
     streamRef := streamRef w; videoSrcObject := r;
     timers := timers w; trace := trace w |}.

Definition setTimers (t : list N) (w : World) : World :=
  {| phoneNumber := phoneNumber w; scanned := scanned w; error := error w;
     isScanning := isScanning w; permissionState := permissionState w;
     isProcessingFile := isProcessingFile w;
     lastScannedContent := lastScannedContent w;
     smsMessage := smsMessage w; isSendingSms := isSendingSms w;
     smsAttempted := smsAttempted w; scanIntervalRef := scanIntervalRef w;
     streamRef := streamRef w; videoSrcObject := videoSrcObject w;
     timers := t; trace := trace w |}.

(** ** The handlers *)

(** A JavaScript string is truthy when it is not empty. *)
Definition truthy (s : jsstring) : bool :=
  match s with [] => false | _ :: _ => true end.

Definition quote : char := 34%N.

Definition notFoundMessage (data : jsstring) : jsstring :=
  js "QR Code detected but no phone number found. Content: "
  ++ [quote] ++ substring_to 100 data ++ js "..." ++ [quote].

Definition noValidNumberMessage (data : jsstring) : jsstring :=
  js "QR code found but no valid phone number detected. Content: "
  ++ [quote] ++ substring_to 100 data
  ++ (if 100 <? length data then js "..." else []) ++ [quote].

(** [clearInterval(id)]. *)
Definition clearInterval (id : N) (w : World) : World :=
  log (ClearInterval id)
      (setTimers (filter (fun t => negb (t =? id)%N) (timers w)) w).

(** [stopStream]. *)
Definition stopStream (w : World) : World :=
  match streamRef w with
  | Some stream => setStreamRef None (log (StopTracks stream) w)
  | None => w
  end.

(** [requestCameraPermission]; [media] is how [getUserMedia] settles. *)
Definition requestCameraPermission (media : MediaStream + DOMException)
           (w : World) : World * bool :=
  let w := setError [] w in
  let w := log GetUserMedia w in
  match media with
  | inl stream =>
    let w := setStreamRef (Some stream) w in
    let w := stopStream w in
    (setPermissionState granted w, true)
  | inr err =>
    if jseqb (errName err) (js "NotAllowedError") then
      let w :=
        setError (js "Camera access denied. Please allow camera access in your browser settings.") w in
      (setPermissionState denied w, false)
    else if jseqb (errName err) (js "NotFoundError") then
      (setError (js "No camera found on this device.") w, false)
    else
      (setError (js "Camera access failed: " ++ errMessage err) w, false)
  end.

(** [stopScanning].  [videoMounted] says whether [videoRef.current] is
    there; a timer handle is truthy when it is not zero. *)
Definition stopScanning (videoMounted : bool) (w : World) : World :=
  let w :=
    match scanIntervalRef w with
    | Some id =>
      if (id =? 0)%N then w
      else setScanIntervalRef None (clearInterval id w)
    | None => w
    end in
  let w := stopStream w in
  let w := if videoMounted then setVideoSrcObject None w else w in
  setIsScanning false w.

(** One firing of the poll timer: [ready] stands for the guards of
    [scanVideoFrame] (video and canvas mounted, enough data, a 2d
    context), [decoded] for [code.data] of the [jsQR] call, [None] when it
    finds no code. *)
Record Tick : Type := mkTick {
  ready : bool;
  decoded : option jsstring
}.

(** [stopScanning] runs inside the callback, past the guard on the video
    element: [videoRef.current] is there. *)
Definition scanVideoFrame (t : Tick) (w : World) : World :=
  if negb (ready t) then w
  else
    let w := log (Decode dontInvert) w in
    match decoded t with
    | Some data =>
      if truthy data then
        let w := setLastScannedContent data w in
        match extractPhoneNumber data with
        | Some phoneMatch =>
          if truthy phoneMatch then
            let w := setPhoneNumber phoneMatch w in
            let w := setScanned true w in
            stopScanning true w
          else setError (notFoundMessage data) w
        | None => setError (notFoundMessage data) w
        end
      else w
    | None => w
    end.

(** [startScanning]: how [getUserMedia] and [video.play()] settle, whether
    the video element is mounted by then, and the handle [setInterval]
    returns. *)
Record StartEnv : Type := mkStartEnv {
  media : MediaStream + DOMException;
  startVideoMounted : bool;
  play : option DOMException;
  timerId : N
}.

Definition startScanning (env : StartEnv) (w : World) : World :=
  let w := setError [] w in
  let w := setIsScanning true w in
  let w := log GetUserMedia w in
  match media env with
  | inl stream =>
    let w := setStreamRef (Some stream) w in
    if startVideoMounted env then
      let w := setVideoSrcObject (Some stream) w in
      match play env with
      | None =>
        let w := log (SetInterval (timerId env) 200) w in
        let w := setTimers (timerId env :: timers w) w in
        setScanIntervalRef (Some (timerId env)) w
      | Some err =>
        setIsScanning false
          (setError (js "Failed to start camera: " ++ errMessage err) w)
      end
    else w
  | inr err =>
    setIsScanning false
      (setError (js "Failed to start camera: " ++ errMessage err) w)
  end.

(** The browser fires the callback of an interval as long as the interval
    has not been cleared. *)
Definition poll (id : N) (t : Tick) (w : World) : World :=
  if existsb (N.eqb id) (timers w) then scanVideoFrame t w else w.

Definition run (id : N) (ts : list Tick) (w : World) : World :=
  fold_left (fun w t => poll id t w) ts w.

(** [processFileUpload]: what becomes of the image.  [img.onload] runs
    after the [try] block has ended: when it throws, nothing catches the
    exception and the handler ends there.  [getImageData] throws on a
    canvas without width or height or too large a one, before the decoder
    is called; [inDecoder] tells the case that the decoder itself throws,
    after it was called. *)
Inductive ImageLoad : Type :=
| NoCanvas
| NoContext
| LoadError
| Loaded (code : option jsstring)
| OnloadThrows (inDecoder : bool).

Definition processFileUpload (img : ImageLoad) (file : File) (w : World)
  : World :=
  let w := log (ProcessFileUpload file) w in
  let w := setIsProcessingFile true w in
  let w := setError [] w in
  match img with
  | NoCanvas =>
    setIsProcessingFile false
      (setError (js "Failed to process file: Canvas not available") w)
  | NoContext =>
    setIsProcessingFile false
      (setError (js "Failed to process file: Canvas context not available") w)
  | LoadError =>
    setIsProcessingFile false
      (setError (js "Failed to load image file. Please try a different image.") w)
  | Loaded code =>
    let w := log (Decode attemptBoth) w in
    let w :=
      match code with
      | Some data =>
        if truthy data then
          let w := setLastScannedContent data w in
          match extractPhoneNumber data with
          | Some phoneMatch =>
            if truthy phoneMatch then
              setScanned true (setPhoneNumber phoneMatch w)
            else setError (noValidNumberMessage data) w
          | None => setError (noValidNumberMessage data) w
          end
        else
          setError (js "No QR code detected in the image. Please ensure the image contains a clear, well-lit QR code.") w
      | None =>
        setError (js "No QR code detected in the image. Please ensure the image contains a clear, well-lit QR code.") w
      end in
    setIsProcessingFile false w
  | OnloadThrows inDecoder =>
    if inDecoder then log (Decode attemptBoth) w else w
  end.

(** [handleFileSelect]; [file] is [event.target.files?.[0]]. *)
Definition handleFileSelect (img : ImageLoad) (file : option File)
           (w : World) : World :=
  match file with
  | Some f =>
    if startsWith (fileType f) (js "image/") then processFileUpload img f w
    else setError (js "Please select an image file (JPG, PNG, GIF, WebP, etc.)") w
  | None => w
  end.

(** [handleManualInput]. *)
Definition handleManualInput (input : jsstring) (w : World) : World :=
  match extractPhoneNumber input with
  | Some phoneMatch =>
    if truthy phoneMatch then
      setError [] (setScanned true (setPhoneNumber phoneMatch w))
    else
      setError (js "Please enter a valid phone number (10-15 digits with optional country code).") w
  | None =>
    setError (js "Please enter a valid phone number (10-15 digits with optional country code).") w
  end.

(** [sendSms]: whether the user agent is a mobile one, whether the
    assignment to [window.location.href] throws, and the message of the
    [URIError] of the engine. *)
Record SmsEnv : Type := mkSmsEnv {
  isMobileDevice : bool;
  hrefThrows : bool;
  uriErrorMessage : jsstring
}.

Definition warnDesktop : jsstring :=
  [9888; 65039]%N ++
  js " SMS links work best on mobile devices. On desktop, you may need to copy the phone number manually.".

Definition sendSms (env : SmsEnv) (w : World) : World :=
  let phone := phoneNumber w in
  let message := smsMessage w in
  let w := setIsSendingSms true w in
  let w := setError [] w in
  let w := setSmsAttempted false w in
  let failed (msg : jsstring) (w : World) :=
    setIsSendingSms false (setError (js "Failed to send SMS: " ++ msg) w) in
  if negb (truthy phone) || (length phone <? 10) then
    failed (js "Invalid phone number") w
  else if negb (truthy (trim message)) then
    failed (js "Message cannot be empty") w
  else
    match encodeURIComponent message with
    | None => failed (uriErrorMessage env) w
    | Some body =>
      let smsLink := js "sms:" ++ phone ++ js "?body=" ++ body in
      let w := if isMobileDevice env then w else setError warnDesktop w in
      let w := log (Navigate smsLink) w in
      if hrefThrows env then
        failed (js "Failed to open SMS application. Please copy the phone number and message manually.") w
      else
        let w := setSmsAttempted true w in
        let w := log (SetTimeout 1000) w in
        setIsSendingSms false w
    end.

(** [resetScanner]. *)
Definition resetScanner (videoMounted : bool) (w : World) : World :=
  let w := setPhoneNumber [] w in
  let w := setScanned false w in
  let w := setError [] w in
  let w := setLastScannedContent [] w in
  let w := setSmsMessage [] w in
  let w := setSmsAttempted false w in
  stopScanning videoMounted w.

(** ** Observations on a state and its trace *)

(** The phone numbers reported, in order. *)
Definition found_reports (tr : list Effect) : list jsstring :=
  flat_map (fun e => match e with SetPhoneNumber p => [p] | _ => [] end) tr.

(** The navigations requested, in order. *)
Definition navigations (tr : list Effect) : list jsstring :=
  flat_map (fun e => match e with Navigate u => [u] | _ => [] end) tr.

(** The effects of file processing and of the decoder. *)
Definition isProcessing (e : Effect) : bool :=
  match e with
  | ProcessFileUpload _ | Decode _ => true
  | _ => false
  end.

(** What a tick yields: the validated candidate of its payload. *)
Definition tick_result (t : Tick) : option jsstring :=
  if ready t then
    match decoded t with
    | Some data => if truthy data then extractPhoneNumber data else None
    | None => None
    end
  else None.

(** A session that polls: the timer [id] is set and still fires, and the
    stream [st] is held. *)
Definition polling (id : N) (st : MediaStream) (w : World) : Prop :=
  scanIntervalRef w = Some id /\ id <> 0%N /\ In id (timers w) /\
  streamRef w = Some st.

(** The digits of a phone number, its [+] apart. *)
Definition digitCount (p : jsstring) : nat := length (drop_plus p).

(** What the state holds as phone number: nothing yet, or a result of the
    extractor. *)
Definition phone_state (p : jsstring) : Prop :=
  p = [] \/ exists text, extractPhoneNumber text = Some p.

(** Everything but the error message, the permission state and the trace
    is the same in [w] and [w']. *)
Definition same_but_error_and_permission (w w' : World) : Prop :=
  phoneNumber w' = phoneNumber w /\ scanned w' = scanned w /\
  isScanning w' = isScanning w /\
  isProcessingFile w' = isProcessingFile w /\
  lastScannedContent w' = lastScannedContent w /\
  smsMessage w' = smsMessage w /\ isSendingSms w' = isSendingSms w /\
  smsAttempted w' = smsAttempted w /\
  scanIntervalRef w' = scanIntervalRef w /\ streamRef w' = streamRef w /\
  videoSrcObject w' = videoSrcObject w /\ timers w' = timers w.

(** The hand-off URI. *)
Definition smsLink (phone body : jsstring) : jsstring :=
  js "sms:" ++ phone ++ js "?body=" ++ body.

(** A session just started: the stream 7 acquired, the video playing, the
    interval 1 set. *)
Definition started : World :=
  startScanning
    {| media := inl 7%N; startVideoMounted := true; play := None;
       timerId := 1%N |} initial.

(** A phone number found and a message typed. *)
Definition composed (message : jsstring) : World :=
  setSmsMessage message (handleManualInput (js "555 123 4567") initial).

(** A mobile browser whose engine words the [URIError] as V8 does. *)
Definition v8 : SmsEnv :=
  {| isMobileDevice := true; hrefThrows := false;
     uriErrorMessage := js "URI malformed" |}.

(** The states the component can be in: the initial one and what the
    handlers make of a state, whatever the browser answers. *)
Inductive reachable : World -> Prop :=
| reach_initial : reachable initial
| reach_permission_probe p w :
    reachable w -> reachable (setPermissionState p w)
| reach_permission m w :
    reachable w -> reachable (fst (requestCameraPermission m w))
| reach_start env w : reachable w -> reachable (startScanning env w)
| reach_stop mounted w : reachable w -> reachable (stopScanning mounted w)
| reach_tick t w : reachable w -> reachable (scanVideoFrame t w)
| reach_file img f w : reachable w -> reachable (handleFileSelect img f w)
| reach_manual input w : reachable w -> reachable (handleManualInput input w)
| reach_message s w : reachable w -> reachable (setSmsMessage s w)
| reach_send env w : reachable w -> reachable (sendSms env w)
| reach_reset mounted w : reachable w -> reachable (resetScanner mounted w).

(** ** Further handlers and observations *)

(** [m] occurs in [s] as a block of consecutive code units. *)
Definition infix (m s : jsstring) : Prop :=
  exists pre post, s = pre ++ m ++ post.

(** The number of digits of a text. *)
Definition ndigits (s : jsstring) : nat := length (strip_non_digits s).

(** At most one code unit, and of the class [p]. *)
Definition optional (p : char -> bool) (o : jsstring) : bool :=
  match o with
  | [] => true
  | [x] => p x
  | _ => false
  end.

(** An optional separator of the formatted patterns: nothing, or one of
    [-], [.] and a white space. *)
Definition optsep (s : jsstring) : bool := optional (in_class false sep) s.

(** An optional single character: nothing, or [c]. *)
Definition optchar (c : char) (s : jsstring) : bool :=
  optional (in_class false [CChar c]) s.

(** [s] is empty or starts outside the class [p]. *)
Definition head_avoids (p : char -> bool) (s : jsstring) : bool :=
  match s with
  | [] => true
  | x :: _ => negb (p x)
  end.

(** A code unit at which no match of the formatted patterns can start:
    not a digit, not [+] and not an opening parenthesis. *)
Definition inert (x : char) : bool :=
  negb (isDigit x || (x =? plus)%N || (x =? ch "(")%N).

(** [s] starts with the code units [cs], up to the case folding of an
    ignore-case pattern. *)
Fixpoint ci_prefix (ic : bool) (cs s : jsstring) {struct cs} : bool :=
  match cs, s with
  | [], _ => true
  | c :: cs', x :: s' =>
    (canonicalize ic c =? canonicalize ic x)%N && ci_prefix ic cs' s'
  | _ :: _, [] => false
  end.

(** A national number as the standard pattern reads it: three digits, three
    digits and four digits, with optional parentheses around the first
    group and optional separators between the groups. *)
Definition national (lp a rp s1 b s2 c : jsstring) : jsstring :=
  lp ++ a ++ rp ++ s1 ++ b ++ s2 ++ c.

(** The part of the standard pattern after the country group. *)
Definition national_tail : regex :=
  seqs [Rep [CChar (ch "(")] 0 (Some 1); Rep d09 3 (Some 3);
        Rep [CChar (ch ")")] 0 (Some 1); Rep sep 0 (Some 1);
        Rep d09 3 (Some 3); Rep sep 0 (Some 1); Rep d09 4 (Some 4)].

(** The click handler of the camera button: [probe] is how the
    [getUserMedia] of the permission request settles, [env] what
    [startScanning] meets. *)
Definition cameraButtonClick (probe : MediaStream + DOMException)
           (env : StartEnv) (w : World) : World :=
  match permissionState w with
  | granted => startScanning env w
  | _ =>
    let (w, isGranted) := requestCameraPermission probe w in
    if isGranted then startScanning env w else w
  end.

(** The calls of the decoder, in order. *)
Definition decodes (tr : list Effect) : list Inversion :=
  flat_map (fun e => match e with Decode m => [m] | _ => [] end) tr.

(** The number of camera acquisitions. *)
Definition acquisitions (tr : list Effect) : nat :=
  length (filter (fun e => match e with GetUserMedia => true | _ => false end)
            tr).

(** The timers set, in order. *)
Definition intervals_set (tr : list Effect) : list N :=
  flat_map (fun e => match e with SetInterval id _ => [id] | _ => [] end) tr.

(** The streams whose tracks were stopped, in order. *)
Definition stopped (tr : list Effect) : list MediaStream :=
  flat_map (fun e => match e with StopTracks st => [st] | _ => [] end) tr.

(** A character that may stand in the body of a URI: unreserved, or the
    [%] of an escape. *)
Definition uriSafe (c : char) : bool := uriUnreserved c || (c =? ch "%")%N.

(** An upper-case hexadecimal digit. *)
Definition isHexDigit (c : char) : bool :=
  isDigit c || ((65 <=? c) && (c <=? 70))%N.

(** A string made of unreserved characters and of escapes, each a [%]
    and two hexadecimal digits. *)
Fixpoint uriEscaped (s : jsstring) : bool :=
  match s with
  | [] => true
  | c :: s' =>
    if (c =? ch "%")%N then
      match s' with
      | h1 :: h2 :: s'' => isHexDigit h1 && isHexDigit h2 && uriEscaped s''
      | _ => false
      end
    else uriUnreserved c && uriEscaped s'
  end.

(** Every element is a UTF-16 code unit. *)
Definition codeUnits (s : jsstring) : bool :=
  forallb (fun c => (c <? 65536)%N) s.

(** The capture session, the permission and the message form are the
    same in [w] and [w']. *)
Definition same_session (w w' : World) : Prop :=
  scanIntervalRef w' = scanIntervalRef w /\ streamRef w' = streamRef w /\
  videoSrcObject w' = videoSrcObject w /\ timers w' = timers w /\
  isScanning w' = isScanning w /\
  permissionState w' = permissionState w /\
  smsMessage w' = smsMessage w /\ smsAttempted w' = smsAttempted w /\
  isSendingSms w' = isSendingSms w.

(** [pattern.test(s)] for a pattern without the [g] flag: a match at some
    position, the end of the string included. *)
Fixpoint regex_test (ic : bool) (r : regex) (s : jsstring) : bool :=
  match exec_at ic r s with
  | Some _ => true
  | None =>
    match s with
    | [] => false
    | _ :: s' => regex_test ic r s'
    end
  end.

Module UserAgent.

(** The words of [/Android|webOS|iPhone|iPad|iPod|BlackBerry|IEMobile|Opera Mini/i]. *)
Definition keywords : list jsstring :=
  [js "Android"; js "webOS"; js "iPhone"; js "iPad"; js "iPod";
   js "BlackBerry"; js "IEMobile"; js "Opera Mini"].

Definition pat_mobile : regex :=
  Alt (lit "Android")
  (Alt (lit "webOS")
  (Alt (lit "iPhone")
  (Alt (lit "iPad")
  (Alt (lit "iPod")
  (Alt (lit "BlackBerry")
  (Alt (lit "IEMobile") (lit "Opera Mini"))))))).

(** [isMobileDevice], of [navigator.userAgent]. *)
Definition isMobileDevice (userAgent : jsstring) : bool :=
  regex_test true pat_mobile userAgent.

End UserAgent.

(** How a handler may leave the phone number and the [scanned] flag: as
    they were, a number just found, or both cleared. *)
Definition phone_step (w w' : World) : Prop :=
  (phoneNumber w' = phoneNumber w /\ scanned w' = scanned w) \/
  (scanned w' = true /\
   exists text, extractPhoneNumber text = Some (phoneNumber w')) \/
  (phoneNumber w' = [] /\ scanned w' = false).

(** * Theorems *)

(** ** The examples of the specification *)

Example extract_tel_uri :
  extractPhoneNumber (js "tel:+1-202-555-0172") = Some (js "+12025550172").
Proof. vm_compute. reflexivity. Qed.

Example extract_phone_prefix :
  extractPhoneNumber (js "phone: 555 123 4567") = Some (js "5551234567").
Proof. vm_compute. reflexivity. Qed.

Example extract_no_digits :
  extractPhoneNumber (js "no digits here") = None.
Proof. vm_compute. reflexivity. Qed.

(** ** Facts about the matcher *)

Lemma consumed_nil n s k e : k n s = Some e -> consumed n s k e 0.
Proof.
  intros H. exists [], s. simpl. rewrite Nat.add_0_r. auto.
Qed.

Lemma consumed_cons c n s k e least :
  consumed (S n) s k e least -> consumed n (c :: s) k e (S least).
Proof.
  intros (pre & s' & -> & Hl & Hk). exists (c :: pre), s'. simpl.
  rewrite Nat.add_succ_r. repeat split; auto. lia.
Qed.

Lemma consumed_weaken n s k e l1 l2 :
  l2 <= l1 -> consumed n s k e l1 -> consumed n s k e l2.
Proof.
  intros Hle (pre & s' & -> & Hl & Hk). exists pre, s'.
  repeat split; auto. lia.
Qed.

Lemma rep_consumed p s :
  forall lo hi n k e,
    rep p lo hi n s k = Some e -> consumed n s k e lo.
Proof.
  induction s as [|c s IH]; intros lo hi n k e H.
  - simpl in H.
    assert (Hs : match lo with 0 => k n [] | S _ => None end = Some e)
      by (destruct hi as [[|h]|]; exact H).
    destruct lo; [apply consumed_nil; exact Hs | discriminate].
  - assert (Hstop : match lo with 0 => k n (c :: s) | S _ => None end
                    = Some e -> consumed n (c :: s) k e lo).
    { destruct lo; [apply consumed_nil | discriminate]. }
    assert (Hstep : forall hi',
      (if p c then
         match rep p (pred lo) hi' (S n) s k with
         | Some e0 => Some e0
         | None => match lo with 0 => k n (c :: s) | S _ => None end
         end
       else match lo with 0 => k n (c :: s) | S _ => None end) = Some e ->
      consumed n (c :: s) k e lo).
    { intros hi' H'. destruct (p c); [|auto].
      destruct (rep p (pred lo) hi' (S n) s k) as [e0|] eqn:E; [|auto].
      injection H' as ->. apply IH in E. apply consumed_cons with (c := c) in E.
      eapply consumed_weaken; [|exact E]. lia. }
    simpl in H. destruct hi as [[|h]|]; eauto.
Qed.

Lemma bt_consumed ic r :
  forall n s k e, bt ic r n s k = Some e -> consumed n s k e (min_len r).
Proof.
  induction r as [|a|a lo hi|r1 IH1|r1 IH1 r2 IH2|r1 IH1 r2 IH2];
    intros n s k e H; simpl in *.
  - apply consumed_nil; exact H.
  - destruct s as [|c s]; [discriminate|].
    destruct (in_class ic a c); [|discriminate].
    apply consumed_cons, consumed_nil; exact H.
  - eapply rep_consumed; eassumption.
  - destruct (bt ic r1 n s
                (fun n' s' => if n' =? n then None else k n' s'))
      as [e0|] eqn:E.
    + injection H as ->. apply IH1 in E.
      destruct E as (pre & s' & -> & _ & Hk).
      destruct (n + length pre =? n); [discriminate|].
      exists pre, s'. repeat split; auto. lia.
    + apply consumed_nil; exact H.
  - destruct (bt ic r1 n s k) as [e0|] eqn:E.
    + injection H as ->. apply IH1 in E.
      eapply consumed_weaken; [|exact E]. lia.
    + apply IH2 in H. eapply consumed_weaken; [|exact H]. lia.
  - apply IH1 in H. destruct H as (pre1 & s1 & -> & Hl1 & Hk1).
    apply IH2 in Hk1. destruct Hk1 as (pre2 & s2 & -> & Hl2 & Hk2).
    exists (pre1 ++ pre2), s2. rewrite length_app, <- app_assoc.
    repeat split; auto; [lia|]. rewrite Nat.add_assoc. exact Hk2.
Qed.

(** A pattern matches no input shorter than its least length. *)
Lemma exec_at_short ic r s :
  length s < min_len r -> exec_at ic r s = None.
Proof.
  intros Hlt. unfold exec_at.
  destruct (bt ic r 0 s (fun n _ => Some n)) as [e|] eqn:E; [|reflexivity].
  apply bt_consumed in E. destruct E as (pre & s' & -> & Hl & _).
  rewrite length_app in Hlt. lia.
Qed.

(** A match is never longer than the input. *)
Lemma exec_at_le ic r s len : exec_at ic r s = Some len -> len <= length s.
Proof.
  unfold exec_at. intros E. apply bt_consumed in E.
  destruct E as (pre & s' & -> & _ & Hk). simpl in Hk.
  injection Hk as <-. rewrite length_app. lia.
Qed.

(** A pattern that starts with a literal fails on an input that starts
    with another code unit. *)
Lemma lit_head_mismatch ic c cs r s :
  match s with
  | [] => True
  | x :: _ => (canonicalize ic c =? canonicalize ic x)%N = false
  end ->
  exec_at ic (Seq (Seq (Atom [CChar c]) cs) r) s = None.
Proof.
  unfold exec_at. simpl. destruct s as [|x s]; [reflexivity|].
  intros ->. reflexivity.
Qed.

(** No match anywhere: the pattern fails at every suffix. *)
Lemma match_all_none ic r s :
  (forall pre t, s = pre ++ t -> exec_at ic r t = None) ->
  match_all ic r 0 s = [].
Proof.
  induction s as [|c s IH]; intros H; simpl.
  - rewrite (H [] []); reflexivity.
  - rewrite (H [] (c :: s)) by reflexivity. apply IH.
    intros pre t ->. apply (H (c :: pre) t). reflexivity.
Qed.

(** ** Digit runs *)

Lemma isDigit_bounds c : isDigit c = true -> (48 <= c <= 57)%N.
Proof.
  unfold isDigit. rewrite andb_true_iff, !N.leb_le. tauto.
Qed.

Lemma digit_cases c :
  isDigit c = true ->
  In c [48; 49; 50; 51; 52; 53; 54; 55; 56; 57]%N.
Proof.
  intros H. apply isDigit_bounds in H. simpl.
  assert (c = 48 \/ c = 49 \/ c = 50 \/ c = 51 \/ c = 52 \/ c = 53 \/
          c = 54 \/ c = 55 \/ c = 56 \/ c = 57)%N by lia.
  intuition auto.
Qed.

Lemma digit_not_space c : isDigit c = true -> isSpace c = false.
Proof.
  intros H. apply digit_cases in H. simpl in H.
  repeat (destruct H as [<-|H]; [reflexivity|]). contradiction.
Qed.

Lemma digit_not_char ic c x :
  isDigit c = true -> (x < 48 \/ 57 < x)%N ->
  (canonicalize ic x =? canonicalize ic c)%N = false.
Proof.
  intros H Hx. apply isDigit_bounds in H. unfold canonicalize.
  repeat match goal with
  | |- context [(?a <=? ?b)%N] => destruct (N.leb_spec a b)
  end; destruct ic; simpl; apply N.eqb_neq; lia.
Qed.

Lemma digit_in_d09 ic c : isDigit c = true -> in_class ic d09 c = true.
Proof.
  intros H. unfold in_class, d09. simpl. rewrite orb_false_r. exact H.
Qed.

Lemma digit_in_CDigit ic c :
  isDigit c = true -> in_class ic [CDigit] c = true.
Proof.
  intros H. unfold in_class. simpl. rewrite H. reflexivity.
Qed.

Lemma digit_not_sep ic c : isDigit c = true -> in_class ic sep c = false.
Proof.
  intros H. unfold in_class, sep. simpl.
  rewrite !digit_not_char by (auto; vm_compute; left; reflexivity).
  rewrite digit_not_space by exact H. reflexivity.
Qed.

Lemma digit_not_lit ic c x :
  isDigit c = true -> (x < 48 \/ 57 < x)%N ->
  in_class ic [CChar x] c = false.
Proof.
  intros H Hx. unfold in_class. simpl.
  rewrite digit_not_char by assumption. reflexivity.
Qed.

Lemma digit_not_plus c : isDigit c = true -> (c =? plus)%N = false.
Proof.
  intros H. apply isDigit_bounds in H. apply N.eqb_neq.
  change plus with 43%N. lia.
Qed.

Lemma digits_cons c s :
  digits (c :: s) = true <-> isDigit c = true /\ digits s = true.
Proof. unfold digits. simpl. apply andb_true_iff. Qed.

Lemma digits_app s t :
  digits (s ++ t) = true <-> digits s = true /\ digits t = true.
Proof. unfold digits. rewrite forallb_app. apply andb_true_iff. Qed.

Lemma strip_digits s : digits s = true -> strip_non_digits s = s.
Proof.
  induction s as [|c s IH]; [reflexivity|].
  rewrite digits_cons. intros [Hc Hs]. unfold strip_non_digits in *.
  simpl. rewrite Hc, IH by assumption. reflexivity.
Qed.

(** [trim] leaves a string alone that neither starts nor ends with white
    space. *)
Lemma trimStart_head c s : isSpace c = false -> trimStart (c :: s) = c :: s.
Proof. intros H. simpl. rewrite H. reflexivity. Qed.

Lemma trim_digits s : digits s = true -> trim s = s.
Proof.
  intros H. unfold trim, trimEnd.
  assert (Hs : trimStart s = s).
  { destruct s as [|c s]; [reflexivity|]. apply digits_cons in H.
    apply trimStart_head, digit_not_space, H. }
  rewrite Hs.
  assert (Hr : digits (rev s) = true).
  { unfold digits in *. rewrite forallb_forall in *.
    intros x Hx. apply H, in_rev, Hx. }
  destruct (rev s) as [|c r] eqn:E.
  - simpl. apply (f_equal (@rev _)) in E. rewrite rev_involutive in E.
    symmetry. exact E.
  - apply digits_cons in Hr. rewrite trimStart_head
      by (apply digit_not_space, Hr).
    rewrite <- E. apply rev_involutive.
Qed.

(** The prefix pattern [/^(tel:|phone:)/i] fails on a string that starts
    with a digit or with [+]. *)
Lemma prefix_none c s :
  isDigit c = true \/ c = plus ->
  replace_anchored true pat_prefix (c :: s) = c :: s.
Proof.
  intros H. unfold replace_anchored, exec_at, pat_prefix, lit.
  cbn [bt js fold_right in_class existsb in_item].
  assert (Ht : (canonicalize true (ch "t") =? canonicalize true c)%N = false
            /\ (canonicalize true (ch "p") =? canonicalize true c)%N = false).
  { destruct H as [H| ->]; [|split; reflexivity].
    split; apply digit_not_char; auto; right; vm_compute; reflexivity. }
  destruct Ht as [Ht Hp]. unfold ch in Ht, Hp. rewrite Ht, Hp. reflexivity.
Qed.

Lemma candidate_digits d :
  digits d = true -> d <> [] -> candidate d = shape false d.
Proof.
  intros H Hne. destruct d as [|c d]; [congruence|].
  pose proof (proj1 (digits_cons c d) H) as [Hc Hd].
  unfold candidate, shape. rewrite prefix_none by auto.
  rewrite trim_digits by exact H.
  assert (Hp : startsWith (c :: d) [plus] = false).
  { cbn [startsWith]. rewrite N.eqb_sym, digit_not_plus by exact Hc.
    reflexivity. }
  rewrite Hp, strip_digits by exact H.
  unfold drop_plus. rewrite digit_not_plus by exact Hc. reflexivity.
Qed.

Lemma trim_plus_digits d : digits d = true -> trim (plus :: d) = plus :: d.
Proof.
  intros H. unfold trim, trimEnd.
  rewrite trimStart_head by reflexivity.
  destruct d as [|c d]; [reflexivity|].
  assert (Hr : digits (rev (c :: d)) = true).
  { unfold digits in *. rewrite forallb_forall in *.
    intros x Hx. apply H, in_rev, Hx. }
  change (rev (plus :: c :: d)) with (rev (c :: d) ++ [plus]).
  destruct (rev (c :: d)) as [|x r] eqn:E.
  - apply (f_equal (@length _)) in E. rewrite length_rev in E. discriminate.
  - apply digits_cons in Hr. simpl app. rewrite trimStart_head
      by (apply digit_not_space, Hr).
    change (x :: r ++ [plus]) with ((x :: r) ++ [plus]).
    rewrite <- E, rev_app_distr, rev_involutive. reflexivity.
Qed.

Lemma candidate_plus_digits d :
  digits d = true -> candidate (plus :: d) = shape true d.
Proof.
  intros H. unfold candidate, shape. rewrite prefix_none by auto.
  rewrite trim_plus_digits by exact H.
  change (startsWith (plus :: d) [plus]) with true. cbv iota.
  unfold substring_from. simpl skipn. rewrite strip_digits by exact H.
  change (drop_plus (plus :: d)) with d. simpl orb.
  reflexivity.
Qed.

Lemma rep_done p lo n s k :
  rep p lo (Some 0) n s k = match lo with 0 => k n s | S _ => None end.
Proof. destruct s; reflexivity. Qed.

(** Symbolic evaluation of a pattern on a run of digits. *)
Ltac digit_facts :=
  repeat match goal with
  | H : digits (_ :: _) = true |- _ =>
    apply digits_cons in H; destruct H
  | H : digits (_ ++ _) = true |- _ =>
    apply digits_app in H; destruct H
  end.

Ltac run_matcher :=
  unfold exec_at, pat_standard, pat_international, pat_alternative,
    pat_another, country, seqs;
  repeat (cbn [bt rep fold_right pred option_map Nat.eqb];
          rewrite ?rep_done, ?digit_in_d09, ?digit_in_CDigit,
            ?digit_not_sep, ?digit_not_lit
            by (assumption || (vm_compute; auto))).

Tactic Notation "split_run" ident(pre) integer(n) :=
  do n (destruct pre as [|? pre]; [discriminate|]);
  destruct pre; [|discriminate].

(** On ten digits the standard pattern matches exactly these ten, whatever
    follows. *)
Lemma exec_standard_digits pre rest :
  digits pre = true -> length pre = 10 ->
  exec_at false pat_standard (pre ++ rest) = Some 10.
Proof.
  intros Hd Hl. split_run pre 10. digit_facts.
  simpl app. run_matcher. reflexivity.
Qed.

Ltac run_plus :=
  repeat (run_matcher;
          try match goal with
          | |- context [in_class ?ic ?a plus] =>
            let b := eval vm_compute in (in_class ic a plus) in
            change (in_class ic a plus) with b
          end).

(** A run of ten digits or more: the standard pattern, tried first,
    matches its first ten digits, and they validate. *)
Lemma extract_digit_run d :
  digits d = true -> 10 <= length d ->
  extractPhoneNumber d = Some (firstn 10 d).
Proof.
  intros Hd Hl.
  assert (Hpre : digits (firstn 10 d) = true /\ length (firstn 10 d) = 10).
  { rewrite <- (firstn_skipn 10 d) in Hd. apply digits_app in Hd.
    split; [apply Hd | rewrite length_firstn; lia]. }
  destruct Hpre as [Hpd Hpl].
  assert (Hm : exists ms,
             match_all false pat_standard 0 d = firstn 10 d :: ms).
  { destruct d as [|c d]; [simpl in Hl; lia|].
    assert (He : exec_at false pat_standard (c :: d) = Some 10).
    { pose proof (exec_standard_digits _ (skipn 10 (c :: d)) Hpd Hpl) as He.
      rewrite firstn_skipn in He. exact He. }
    cbn [match_all]. rewrite He. eauto. }
  destruct Hm as [ms Hm].
  unfold extractPhoneNumber, phonePatterns. cbn [scan_patterns].
  unfold js_match. rewrite Hm. cbn [first_candidate].
  rewrite candidate_digits.
  - unfold shape. rewrite Hpl. reflexivity.
  - exact Hpd.
  - intros E. rewrite E in Hpl. discriminate.
Qed.

Lemma digits_suffix pre t : digits (pre ++ t) = true -> digits t = true.
Proof. intros H. apply digits_app in H. apply H. Qed.

(** No pattern matches inside a run of fewer than ten digits. *)
Lemma short_run_no_match d ic r :
  In (ic, r) phonePatterns ->
  digits d = true -> length d < 10 -> js_match ic r d = None.
Proof.
  intros Hin Hd Hl. unfold js_match.
  rewrite match_all_none; [reflexivity|].
  intros pre t ->. rewrite length_app in Hl.
  apply digits_suffix in Hd.
  assert (Hhead : forall x,
             (x < 48 \/ 57 < x)%N ->
             match t with
             | [] => True
             | c :: _ => (canonicalize ic x =? canonicalize ic c)%N = false
             end).
  { intros x Hx. destruct t as [|c t]; [exact I|].
    apply digits_cons in Hd. apply digit_not_char; [apply Hd | exact Hx]. }
  simpl in Hin.
  repeat (destruct Hin as [Hin|Hin];
          [injection Hin as <- <-;
           try (apply exec_at_short; simpl; lia) | ]);
    [ | | contradiction].
  - unfold pat_tel, seqs, lit. cbn [fold_right js].
    apply lit_head_mismatch, Hhead. right. reflexivity.
  - unfold pat_phone, seqs, lit. cbn [fold_right js].
    apply lit_head_mismatch, Hhead. right. reflexivity.
Qed.

Lemma scan_no_match ps text :
  (forall ic r, In (ic, r) ps -> js_match ic r text = None) ->
  scan_patterns ps text = None.
Proof.
  induction ps as [|[ic r] ps IH]; intros H; [reflexivity|].
  cbn [scan_patterns]. rewrite (H ic r) by (left; reflexivity).
  apply IH. intros ic' r' Hin. apply H. right. exact Hin.
Qed.

(** A run of fewer than ten digits yields nothing. *)
Lemma extract_short_digit_run d :
  digits d = true -> length d < 10 -> extractPhoneNumber d = None.
Proof.
  intros Hd Hl. unfold extractPhoneNumber.
  rewrite scan_no_match
    by (intros ic r Hin; apply short_run_no_match; assumption).
  unfold fallback. rewrite strip_digits by exact Hd.
  destruct (Nat.leb_spec 10 (length d)); [lia|]. reflexivity.
Qed.

(** ** Digit runs with a leading [+] *)

(** [+] and ten digits: the country group needs a digit of its own, so the
    standard pattern fails at the [+]... *)
Lemma exec_standard_plus10 d :
  digits d = true -> length d = 10 ->
  exec_at false pat_standard (plus :: d) = None.
Proof.
  intros Hd Hl. split_run d 10. digit_facts. run_plus. reflexivity.
Qed.

(** ... and matches the ten digits after it. *)
Lemma extract_plus10 d :
  digits d = true -> length d = 10 ->
  extractPhoneNumber (plus :: d) = Some d.
Proof.
  intros Hd Hl.
  assert (Hm : exists ms, match_all false pat_standard 0 (plus :: d) = d :: ms).
  { cbn [match_all]. rewrite exec_standard_plus10 by assumption.
    destruct d as [|c d]; [discriminate|]. cbn [match_all].
    pose proof (exec_standard_digits _ [] Hd Hl) as He.
    rewrite app_nil_r in He. rewrite He.
    rewrite <- Hl, firstn_all. eauto. }
  destruct Hm as [ms Hm].
  unfold extractPhoneNumber, phonePatterns. cbn [scan_patterns].
  unfold js_match. rewrite Hm. cbn [first_candidate].
  rewrite candidate_digits by (auto; intros ->; discriminate).
  unfold shape. rewrite Hl. reflexivity.
Qed.

(** [+] and eleven to thirteen digits: the whole string is the match. *)
Lemma exec_standard_plus_11_13 d :
  digits d = true -> 11 <= length d <= 13 ->
  exec_at false pat_standard (plus :: d) = Some (S (length d)).
Proof.
  intros Hd Hl.
  assert (Hc : length d = 11 \/ length d = 12 \/ length d = 13) by lia.
  destruct Hc as [Hc|[Hc|Hc]]; rewrite Hc.
  - split_run d 11. digit_facts. run_plus. reflexivity.
  - split_run d 12. digit_facts. run_plus. reflexivity.
  - split_run d 13. digit_facts. run_plus. reflexivity.
Qed.

Lemma extract_plus_11_13 d :
  digits d = true -> 11 <= length d <= 13 ->
  extractPhoneNumber (plus :: d) = Some (plus :: d).
Proof.
  intros Hd Hl.
  assert (Hm : exists ms,
             match_all false pat_standard 0 (plus :: d) = (plus :: d) :: ms).
  { cbn [match_all]. rewrite exec_standard_plus_11_13 by assumption.
    change (S (length d)) with (length (plus :: d)).
    rewrite firstn_all. eauto. }
  destruct Hm as [ms Hm].
  unfold extractPhoneNumber, phonePatterns. cbn [scan_patterns].
  unfold js_match. rewrite Hm. cbn [first_candidate].
  rewrite candidate_plus_digits by exact Hd.
  unfold shape.
  destruct (Nat.leb_spec 10 (length d)); [|lia].
  destruct (Nat.leb_spec (length d) 15); [|lia]. reflexivity.
Qed.

(** [+] and fourteen digits or more: the country group takes three digits
    and the pattern ten more; the rest is cut off. *)
Lemma exec_standard_plus_long pre rest :
  digits pre = true -> length pre = 13 ->
  exec_at false pat_standard (plus :: pre ++ rest) = Some 14.
Proof.
  intros Hd Hl. split_run pre 13. digit_facts.
  simpl app. run_plus. reflexivity.
Qed.

Lemma extract_plus_long d :
  digits d = true -> 14 <= length d ->
  extractPhoneNumber (plus :: d) = Some (plus :: firstn 13 d).
Proof.
  intros Hd Hl.
  assert (Hpre : digits (firstn 13 d) = true /\ length (firstn 13 d) = 13).
  { rewrite <- (firstn_skipn 13 d) in Hd. apply digits_app in Hd.
    split; [apply Hd | rewrite length_firstn; lia]. }
  destruct Hpre as [Hpd Hpl].
  assert (Hm : exists ms,
             match_all false pat_standard 0 (plus :: d)
             = (plus :: firstn 13 d) :: ms).
  { pose proof (exec_standard_plus_long _ (skipn 13 d) Hpd Hpl) as He.
    rewrite firstn_skipn in He.
    cbn [match_all]. rewrite He. cbn [firstn]. eauto. }
  destruct Hm as [ms Hm].
  unfold extractPhoneNumber, phonePatterns. cbn [scan_patterns].
  unfold js_match. rewrite Hm. cbn [first_candidate].
  rewrite candidate_plus_digits by exact Hpd.
  unfold shape. rewrite Hpl. reflexivity.
Qed.

(** ** The loops of [extractPhoneNumber] *)

Lemma first_candidate_some ms p :
  first_candidate ms = Some p <->
  exists j m, nth_error ms j = Some m /\ candidate m = Some p /\
              forall j' m', j' < j -> nth_error ms j' = Some m' ->
                            candidate m' = None.
Proof.
  induction ms as [|m ms IH]; cbn [first_candidate].
  - split; [discriminate|]. intros ([|j] & m & H & _); discriminate.
  - destruct (candidate m) as [q|] eqn:E.
    + split.
      * intros H. injection H as ->. exists 0, m.
        repeat split; auto. intros j' m' Hlt. lia.
      * intros (j & m0 & Hn & Hc & Hprev). destruct j as [|j].
        -- injection Hn as <-. congruence.
        -- specialize (Hprev 0 m (Nat.lt_0_succ j) eq_refl). congruence.
    + rewrite IH. split.
      * intros (j & m0 & Hn & Hc & Hprev). exists (S j), m0.
        repeat split; auto. intros [|j'] m' Hlt Hn'.
        -- injection Hn' as <-. exact E.
        -- apply (Hprev j' m'); [lia | exact Hn'].
      * intros (j & m0 & Hn & Hc & Hprev). destruct j as [|j].
        -- injection Hn as <-. congruence.
        -- exists j, m0. repeat split; auto. intros j' m' Hlt Hn'.
           apply (Hprev (S j') m'); [lia | exact Hn'].
Qed.

Lemma first_candidate_none ms :
  first_candidate ms = None <->
  forall j m, nth_error ms j = Some m -> candidate m = None.
Proof.
  induction ms as [|m ms IH]; cbn [first_candidate].
  - split; auto. intros _ [|j] m H; discriminate.
  - destruct (candidate m) as [q|] eqn:E.
    + split; [discriminate|]. intros H.
      specialize (H 0 m eq_refl). congruence.
    + rewrite IH. split.
      * intros H [|j] m' Hn; [injection Hn as <-; exact E|].
        apply (H j m' Hn).
      * intros H j m' Hn. apply (H (S j) m' Hn).
Qed.

Lemma rejected_head_none ic r ps text j :
  js_match ic r text = None -> rejected_at ((ic, r) :: ps) text 0 j.
Proof.
  intros Hm ic' r' ms m Hn Hm'. injection Hn as <- <-. congruence.
Qed.

Lemma rejected_tail q ps text i j :
  rejected_at (q :: ps) text (S i) j <-> rejected_at ps text i j.
Proof. unfold rejected_at. simpl. tauto. Qed.

Lemma validates_tail q ps text i j p :
  validates_at (q :: ps) text (S i) j p <-> validates_at ps text i j p.
Proof. unfold validates_at. simpl. tauto. Qed.

Lemma rejected_head ic r ps text ms :
  js_match ic r text = Some ms ->
  first_candidate ms = None <->
  forall j, rejected_at ((ic, r) :: ps) text 0 j.
Proof.
  intros Hm. rewrite first_candidate_none. split.
  - intros H j ic' r' ms' m Hn Hm' Hj. injection Hn as <- <-.
    rewrite Hm in Hm'. injection Hm' as <-. eapply H; eassumption.
  - intros H j m Hn. apply (H j ic r ms m); auto.
Qed.

Lemma first_validated_skip ic r ps text p :
  (forall j, rejected_at ((ic, r) :: ps) text 0 j) ->
  first_validated ((ic, r) :: ps) text p <-> first_validated ps text p.
Proof.
  intros Hrej. split.
  - intros (i & j & Hv & Hj & Hi). destruct i as [|i].
    + destruct Hv as (ic' & r' & ms & m & Hn & Hm & Hnm & Hc).
      specialize (Hrej j ic' r' ms m Hn Hm Hnm). congruence.
    + exists i, j. split; [apply validates_tail in Hv; exact Hv|].
      split.
      * intros j' Hlt.
        apply (proj1 (rejected_tail (ic, r) ps text i j')), Hj, Hlt.
      * intros i' j' Hlt.
        apply (proj1 (rejected_tail (ic, r) ps text i' j')), Hi. lia.
  - intros (i & j & Hv & Hj & Hi). exists (S i), j.
    split; [apply validates_tail; exact Hv|]. split.
    + intros j' Hlt.
      apply (proj2 (rejected_tail (ic, r) ps text i j')), Hj, Hlt.
    + intros [|i'] j' Hlt; [apply Hrej|].
      apply (proj2 (rejected_tail (ic, r) ps text i' j')), Hi. lia.
Qed.

Lemma scan_patterns_some ps text p :
  scan_patterns ps text = Some p <-> first_validated ps text p.
Proof.
  induction ps as [|[ic r] ps IH]; cbn [scan_patterns].
  - split; [discriminate|].
    intros ([|i] & j & (ic & r & ms & m & Hn & _) & _); discriminate.
  - destruct (js_match ic r text) as [ms|] eqn:Hm.
    + destruct (first_candidate ms) as [q|] eqn:Hf.
      * split.
        -- intros H. injection H as ->.
           apply first_candidate_some in Hf.
           destruct Hf as (j & m & Hn & Hc & Hprev).
           exists 0, j. split; [exists ic, r, ms, m; auto|]. split.
           ++ intros j' Hlt ic' r' ms' m' Hn' Hm' Hj'.
              injection Hn' as <- <-. rewrite Hm in Hm'.
              injection Hm' as <-. eapply Hprev; eassumption.
           ++ intros i' j' Hlt. lia.
        -- intros (i & j & Hv & Hj & Hi). destruct i as [|i].
           ++ destruct Hv as (ic' & r' & ms' & m & Hn & Hm' & Hnm & Hc).
              injection Hn as <- <-. rewrite Hm in Hm'.
              injection Hm' as <-.
              assert (Hf' : first_candidate ms = Some p).
              { apply first_candidate_some. exists j, m.
                repeat split; auto. intros j' m' Hlt Hn'.
                apply (Hj j' Hlt ic r ms m'); auto. }
              congruence.
           ++ assert (Hrej : first_candidate ms = None).
              { apply first_candidate_none. intros j' m' Hn'.
                apply (Hi 0 j' (Nat.lt_0_succ i) ic r ms m'); auto. }
              congruence.
      * rewrite IH. symmetry. apply first_validated_skip.
        apply (rejected_head ic r ps text ms Hm). exact Hf.
    + rewrite IH. symmetry. apply first_validated_skip.
      intros j. apply rejected_head_none, Hm.
Qed.

Lemma scan_patterns_none ps text :
  scan_patterns ps text = None <-> none_validated ps text.
Proof.
  induction ps as [|[ic r] ps IH]; cbn [scan_patterns].
  - split; auto. intros _ [|i] j ic r ms m Hn; discriminate.
  - assert (Hsplit : none_validated ((ic, r) :: ps) text <->
                     (forall j, rejected_at ((ic, r) :: ps) text 0 j) /\
                     none_validated ps text).
    { split.
      - intros H. split; [intros j; apply H|].
        intros i j.
        apply (proj1 (rejected_tail (ic, r) ps text i j)), H.
      - intros [H0 Ht] [|i] j; [apply H0|].
        apply (proj2 (rejected_tail (ic, r) ps text i j)), Ht. }
    rewrite Hsplit, <- IH.
    destruct (js_match ic r text) as [ms|] eqn:Hm.
    + rewrite <- (rejected_head ic r ps text ms Hm).
      destruct (first_candidate ms); [|tauto].
      split; [discriminate | intros [? _]; discriminate].
    + split; [|tauto]. intros H. split; [|exact H].
      intros j. apply rejected_head_none, Hm.
Qed.

(** ** The invariant of the results *)

Lemma drop_plus_digits d : digits d = true -> drop_plus d = d.
Proof.
  destruct d as [|c d]; [reflexivity|]. intros H.
  apply digits_cons in H. unfold drop_plus.
  rewrite digit_not_plus by apply H. reflexivity.
Qed.

Lemma digits_strip s : digits (strip_non_digits s) = true.
Proof.
  unfold digits, strip_non_digits. apply forallb_forall.
  intros x Hx. apply filter_In in Hx. apply Hx.
Qed.

Lemma PhoneCandidate_digits d :
  digits d = true ->
  (10 <=? length d) && (length d <=? 15) = true ->
  PhoneCandidate d = true /\ PhoneCandidate (plus :: d) = true.
Proof.
  intros Hd Hl. unfold PhoneCandidate.
  change (drop_plus (plus :: d)) with d.
  rewrite (drop_plus_digits d Hd), Hd, <- andb_assoc, Hl. auto.
Qed.

Lemma candidate_invariant m p :
  candidate m = Some p -> PhoneCandidate p = true.
Proof.
  unfold candidate.
  set (phone := trim (replace_anchored true pat_prefix m)).
  cbv zeta. destruct (startsWith phone [plus]); cbv iota.
  - change (drop_plus (plus :: strip_non_digits (substring_from 1 phone)))
      with (strip_non_digits (substring_from 1 phone)).
    pose proof (PhoneCandidate_digits _
                  (digits_strip (substring_from 1 phone))) as Hok.
    destruct ((10 <=? length (strip_non_digits (substring_from 1 phone)))
              && (length (strip_non_digits (substring_from 1 phone)) <=? 15));
      [|discriminate].
    intros H. injection H as <-. apply Hok. reflexivity.
  - rewrite (drop_plus_digits _ (digits_strip phone)).
    pose proof (PhoneCandidate_digits _ (digits_strip phone)) as Hok.
    destruct ((10 <=? length (strip_non_digits phone))
              && (length (strip_non_digits phone) <=? 15)); [|discriminate].
    destruct (11 <=? length (strip_non_digits phone));
      intros H; injection H as <-; apply Hok; reflexivity.
Qed.

Lemma first_candidate_invariant ms p :
  first_candidate ms = Some p -> PhoneCandidate p = true.
Proof.
  induction ms as [|m ms IH]; cbn [first_candidate]; [discriminate|].
  destruct (candidate m) as [q|] eqn:E; [|exact IH].
  intros H. injection H as <-. eapply candidate_invariant, E.
Qed.

Lemma scan_patterns_invariant ps text p :
  scan_patterns ps text = Some p -> PhoneCandidate p = true.
Proof.
  induction ps as [|[ic r] ps IH]; cbn [scan_patterns]; [discriminate|].
  destruct (js_match ic r text) as [ms|]; [|exact IH].
  destruct (first_candidate ms) as [q|] eqn:E; [|exact IH].
  intros H. injection H as <-. eapply first_candidate_invariant, E.
Qed.

Lemma fallback_invariant text p :
  fallback text = Some p -> PhoneCandidate p = true.
Proof.
  unfold fallback. cbv zeta.
  pose proof (PhoneCandidate_digits _ (digits_strip text)) as Hok.
  destruct ((10 <=? length (strip_non_digits text))
            && (length (strip_non_digits text) <=? 15)); [|discriminate].
  destruct (11 <=? length (strip_non_digits text));
    intros H; injection H as <-; apply Hok; reflexivity.
Qed.

(** The residual digit run of the fallback, shaped. *)
Lemma fallback_shape text :
  fallback text = shape false (strip_non_digits text).
Proof. reflexivity. Qed.

(** ** The extractor: what the specification says of it *)

Lemma PhoneCandidate_shape p :
  PhoneCandidate p = true ->
  exists d, (p = d \/ p = plus :: d) /\ digits d = true /\
            10 <= length d <= 15.
Proof.
  unfold PhoneCandidate. cbv zeta.
  rewrite !andb_true_iff, !Nat.leb_le. intros [[Hd Hlo] Hhi].
  exists (drop_plus p). repeat split; auto.
  destruct p as [|c p]; [left; reflexivity|]. unfold drop_plus.
  destruct (N.eqb_spec c plus) as [->|_]; [right | left]; reflexivity.
Qed.

(** C1 (digit runs of ten to fifteen digits come back whole, with [+] from
    eleven digits on): the code does not do this.  On the eleven-digit run
    12345678901 the standard pattern, tried first, matches the first ten
    digits, and the extractor returns 1234567890, not +12345678901. *)
Theorem C1_eleven_digits_truncated :
  extractPhoneNumber (js "12345678901") = Some (js "1234567890").
Proof.
  apply (extract_digit_run (js "12345678901")); [reflexivity|].
  simpl. lia.
Qed.

(** C2 (a digit run shorter than ten or longer than fifteen yields
    nothing): the code does not do this for the long runs.  On the
    sixteen-digit run 1234567890123456 the extractor returns its first ten
    digits. *)
Theorem C2_sixteen_digits_accepted :
  extractPhoneNumber (js "1234567890123456") = Some (js "1234567890").
Proof.
  apply (extract_digit_run (js "1234567890123456")); [reflexivity|].
  simpl. lia.
Qed.

(** C3: the patterns are tried in the order standard, international, the
    two alternative groupings, tel:, phone:; the pattern loops return [p]
    exactly when [p] is the first validated candidate in that order (every
    candidate of an earlier pattern, and every earlier candidate of the
    same pattern, is rejected), and [p] is then the result of
    [extractPhoneNumber]. *)
Theorem C3_first_validated_in_order (text : jsstring) :
  map snd phonePatterns =
    [pat_standard; pat_international; pat_alternative; pat_another;
     pat_tel; pat_phone] /\
  (forall p, scan_patterns phonePatterns text = Some p <->
             first_validated phonePatterns text p) /\
  (forall p, first_validated phonePatterns text p ->
             extractPhoneNumber text = Some p).
Proof.
  split; [reflexivity|]. split.
  - intros p. apply scan_patterns_some.
  - intros p H. apply scan_patterns_some in H.
    unfold extractPhoneNumber. rewrite H. reflexivity.
Qed.

Lemma C3_first_validated_in_order_witness :
  first_validated phonePatterns (js "tel:12 phone:12 34 56 78 90")
    (js "1234567890") /\
  extractPhoneNumber (js "tel:12 phone:12 34 56 78 90")
    = Some (js "1234567890").
Proof.
  destruct (C3_first_validated_in_order (js "tel:12 phone:12 34 56 78 90"))
    as (_ & Hiff & Hex).
  assert (Hfv : first_validated phonePatterns
                  (js "tel:12 phone:12 34 56 78 90") (js "1234567890")).
  { apply Hiff. vm_compute. reflexivity. }
  split; [exact Hfv | apply Hex, Hfv].
Defined.

(** The candidate of the tel: pattern is rejected here and the phone:
    pattern, the next one, supplies the result. *)
Example next_pattern_is_tried :
  js_match true pat_tel (js "tel:12 phone:12 34 56 78 90")
    = Some [js "tel:12 "] /\
  candidate (js "tel:12 ") = None /\
  extractPhoneNumber (js "tel:12 phone:12 34 56 78 90")
    = Some (js "1234567890").
Proof. vm_compute. auto. Qed.

(** C4: when no candidate of any pattern validates, the result is decided
    by the residual digit run [R] of the whole input: [R] itself for ten
    digits, [+] and [R] for eleven to fifteen, nothing otherwise. *)
Theorem C4_fallback (text : jsstring) :
  none_validated phonePatterns text ->
  let R := strip_non_digits text in
  extractPhoneNumber text =
    if length R =? 10 then Some R
    else if (11 <=? length R) && (length R <=? 15) then Some (plus :: R)
    else None.
Proof.
  intros H. apply scan_patterns_none in H. cbv zeta.
  unfold extractPhoneNumber. rewrite H. unfold fallback. cbv zeta.
  set (n := length (strip_non_digits text)).
  destruct (Nat.eqb_spec n 10) as [->|Hne]; [reflexivity|].
  destruct (Nat.leb_spec 10 n), (Nat.leb_spec n 15), (Nat.leb_spec 11 n);
    simpl; try reflexivity; lia.
Qed.

Lemma C4_fallback_witness :
  none_validated phonePatterns (js "12 34 56 78 90 1") /\
  extractPhoneNumber (js "12 34 56 78 90 1") = Some (js "+12345678901").
Proof.
  assert (Hn : none_validated phonePatterns (js "12 34 56 78 90 1")).
  { apply scan_patterns_none. vm_compute. reflexivity. }
  split; [exact Hn|].
  exact (C4_fallback (js "12 34 56 78 90 1") Hn).
Defined.

(** C5: every result of [extractPhoneNumber] is a phone candidate: digits
    only, after at most one leading [+], and ten to fifteen of them. *)
Theorem C5_output_invariant (text p : jsstring) :
  extractPhoneNumber text = Some p ->
  PhoneCandidate p = true /\
  exists d, (p = d \/ p = plus :: d) /\ digits d = true /\
            10 <= length d <= 15.
Proof.
  intros H.
  assert (Hp : PhoneCandidate p = true).
  { unfold extractPhoneNumber in H.
    destruct (scan_patterns phonePatterns text) as [q|] eqn:E.
    - injection H as <-. eapply scan_patterns_invariant, E.
    - eapply fallback_invariant, H. }
  split; [exact Hp | apply PhoneCandidate_shape, Hp].
Qed.

Lemma C5_output_invariant_witness :
  PhoneCandidate (js "+12025550172") = true /\
  exists d, (js "+12025550172" = d \/ js "+12025550172" = plus :: d) /\
            digits d = true /\ 10 <= length d <= 15.
Proof.
  apply (C5_output_invariant (js "tel:+1-202-555-0172")).
  vm_compute. reflexivity.
Defined.

(** C6 (extraction returns its own results unchanged): the code does not
    do this.  +12345678901234 is a result of the extractor, and extracting
    from it again gives +1234567890123: the standard pattern takes three
    digits for the country and ten more, and the last digit is lost. *)
Theorem C6_result_not_fixed :
  extractPhoneNumber (js "tel:+12 34 56 78 90 12 34")
    = Some (js "+12345678901234") /\
  extractPhoneNumber (js "+12345678901234") = Some (js "+1234567890123").
Proof.
  split; [vm_compute; reflexivity|].
  apply (extract_plus_long (js "12345678901234")); [reflexivity|].
  simpl. lia.
Qed.

(** A result of ten digits after the [+] loses the [+] when extracted
    again. *)
Example plus_ten_digits_lose_plus :
  extractPhoneNumber (js "tel:+12 34 56 78 90") = Some (js "+1234567890") /\
  extractPhoneNumber (js "+1234567890") = Some (js "1234567890").
Proof.
  split; [vm_compute; reflexivity|].
  apply (extract_plus10 (js "1234567890")); reflexivity.
Qed.

(** ** The scanning session *)

Lemma extract_invariant text p :
  extractPhoneNumber text = Some p -> PhoneCandidate p = true.
Proof.
  unfold extractPhoneNumber. intros H.
  destruct (scan_patterns phonePatterns text) as [q|] eqn:E.
  - injection H as <-. eapply scan_patterns_invariant, E.
  - eapply fallback_invariant, H.
Qed.

Lemma PhoneCandidate_length p :
  PhoneCandidate p = true -> 10 <= digitCount p /\ 10 <= length p.
Proof.
  unfold PhoneCandidate, digitCount. cbv zeta.
  rewrite !andb_true_iff, !Nat.leb_le. intros [[_ Hlo] _].
  split; [exact Hlo|]. destruct p as [|c p]; [simpl in Hlo; lia|].
  unfold drop_plus in Hlo. destruct (c =? plus)%N; simpl in *; lia.
Qed.

Lemma extract_truthy text p :
  extractPhoneNumber text = Some p -> truthy p = true.
Proof.
  intros H. apply extract_invariant, PhoneCandidate_length in H.
  destruct p; [simpl in H; lia | reflexivity].
Qed.

Lemma found_reports_app a b :
  found_reports (a ++ b) = found_reports a ++ found_reports b.
Proof. unfold found_reports. apply flat_map_app. Qed.

Lemma navigations_app a b :
  navigations (a ++ b) = navigations a ++ navigations b.
Proof. unfold navigations. apply flat_map_app. Qed.

Lemma existsb_eqb_In id l : existsb (N.eqb id) l = true <-> In id l.
Proof.
  rewrite existsb_exists. split.
  - intros (x & Hx & E). apply N.eqb_eq in E. subst. exact Hx.
  - intros H. exists id. split; [exact H | apply N.eqb_refl].
Qed.

Lemma not_In_cleared id l :
  ~ In id (filter (fun t => negb (t =? id)%N) l).
Proof.
  intros H. apply filter_In in H. destruct H as [_ H].
  rewrite N.eqb_refl in H. discriminate.
Qed.

(** A tick that yields nothing keeps the session polling and reports
    nothing. *)
Lemma poll_nothing id st t w :
  polling id st w -> tick_result t = None ->
  polling id st (poll id t w) /\
  found_reports (trace (poll id t w)) = found_reports (trace w).
Proof.
  intros Hp Hr. unfold poll.
  destruct (existsb (N.eqb id) (timers w)); [|auto].
  unfold scanVideoFrame, tick_result in *.
  destruct (ready t); [|auto]. cbn [negb]. cbv zeta.
  destruct (decoded t) as [data|].
  - destruct (truthy data).
    + rewrite Hr. unfold polling in *. simpl.
      rewrite !found_reports_app. simpl. rewrite !app_nil_r. auto.
    + unfold polling in *. simpl. rewrite found_reports_app. simpl.
      rewrite app_nil_r. auto.
  - unfold polling in *. simpl. rewrite found_reports_app. simpl.
    rewrite app_nil_r. auto.
Qed.

(** The tick that validates: the report, then the timer cleared and the
    tracks of the stream stopped. *)
Lemma poll_found id st t p w :
  polling id st w -> tick_result t = Some p ->
  let w' := poll id t w in
  trace w' = trace w ++ [Decode dontInvert; SetPhoneNumber p;
                         ClearInterval id; StopTracks st] /\
  phoneNumber w' = p /\ scanned w' = true /\ isScanning w' = false /\
  scanIntervalRef w' = None /\ ~ In id (timers w') /\ streamRef w' = None.
Proof.
  intros (Hi & Hz & Ht & Hs) Hr. cbv zeta. unfold poll.
  rewrite (proj2 (existsb_eqb_In id (timers w)) Ht).
  unfold scanVideoFrame, tick_result in *.
  destruct (ready t); [|discriminate]. cbn [negb]. cbv zeta.
  destruct (decoded t) as [data|]; [|discriminate].
  destruct (truthy data); [|discriminate].
  rewrite Hr, (extract_truthy _ _ Hr).
  unfold stopScanning. simpl. rewrite Hi.
  apply N.eqb_neq in Hz. rewrite Hz.
  unfold stopStream. simpl. rewrite Hs. simpl.
  rewrite <- !app_assoc. simpl.
  repeat split; auto. apply not_In_cleared.
Qed.

(** A cleared timer fires no more. *)
Lemma run_cleared id ts w : ~ In id (timers w) -> run id ts w = w.
Proof.
  intros H. induction ts as [|t ts IH]; [reflexivity|].
  unfold run in *. simpl. unfold poll at 2.
  destruct (existsb (N.eqb id) (timers w)) eqn:E; [|exact IH].
  apply existsb_eqb_In in E. contradiction.
Qed.

Lemma run_app id a b w : run id (a ++ b) w = run id b (run id a w).
Proof. unfold run. apply fold_left_app. Qed.

Lemma run_nothing id st ts w :
  polling id st w -> Forall (fun t => tick_result t = None) ts ->
  polling id st (run id ts w) /\
  found_reports (trace (run id ts w)) = found_reports (trace w).
Proof.
  intros Hp Hts. revert w Hp.
  induction Hts as [|t ts Ht _ IH]; intros w Hp; [auto|].
  destruct (poll_nothing id st t w Hp Ht) as [Hp' Hf].
  destruct (IH _ Hp') as [Hp'' Hf'].
  change (run id (t :: ts) w) with (run id ts (poll id t w)).
  rewrite Hf', Hf. auto.
Qed.

(** C7: in a polling session, the first tick whose payload validates
    reports its candidate, clears the timer and stops the tracks of the
    stream; this is the only report of the session, and the ticks after it
    change nothing, so none of them decodes or reports.  A tick whose payload
    decodes and does not validate reports an error, the text
    QR Code detected but no phone number found. Content: followed by the
    first hundred code units of the payload and three dots between double
    quotes, and leaves the session polling. *)
Theorem C7_first_validating_tick (id : N) (st : MediaStream) (w : World) :
  polling id st w ->
  (forall pre t post p,
      Forall (fun t' => tick_result t' = None) pre ->
      tick_result t = Some p ->
      let w' := run id (pre ++ t :: post) w in
      found_reports (trace w') = found_reports (trace w) ++ [p] /\
      phoneNumber w' = p /\ scanned w' = true /\
      scanIntervalRef w' = None /\ ~ In id (timers w') /\
      streamRef w' = None /\
      In (ClearInterval id) (trace w') /\ In (StopTracks st) (trace w') /\
      w' = run id (pre ++ [t]) w) /\
  (forall t data,
      ready t = true -> decoded t = Some data -> truthy data = true ->
      extractPhoneNumber data = None ->
      let w' := poll id t w in
      error w' =
        js "QR Code detected but no phone number found. Content: "
        ++ [34%N] ++ firstn 100 data ++ js "..." ++ [34%N] /\
      truthy (error w') = true /\
      In (SetError (error w')) (trace w') /\
      polling id st w' /\
      found_reports (trace w') = found_reports (trace w)).
Proof.
  intros Hp. split.
  - intros pre t post p Hpre Ht. cbv zeta.
    destruct (run_nothing id st pre w Hp Hpre) as [Hp' Hf].
    destruct (poll_found id st t p _ Hp' Ht)
      as (Htr & Hph & Hsc & _ & Hiv & Htm & Hsr).
    assert (Hrun : run id (pre ++ t :: post) w = run id (pre ++ [t]) w).
    { rewrite !run_app.
      change (run id (t :: post) (run id pre w))
        with (run id post (poll id t (run id pre w))).
      rewrite run_cleared by exact Htm. reflexivity. }
    rewrite Hrun, run_app.
    change (run id [t] (run id pre w)) with (poll id t (run id pre w)).
    rewrite Htr, found_reports_app, Hf. simpl.
    repeat split; auto; apply in_or_app; right; simpl; auto.
  - intros t data Hr Hd Htd He. cbv zeta.
    assert (Hn : tick_result t = None).
    { unfold tick_result. rewrite Hr, Hd, Htd. exact He. }
    destruct (poll_nothing id st t w Hp Hn) as [Hp' Hf].
    assert (Hw : poll id t w =
                 setError (notFoundMessage data)
                   (setLastScannedContent data
                      (log (Decode dontInvert) w))).
    { unfold poll. destruct Hp as (_ & _ & Hin & _).
      rewrite (proj2 (existsb_eqb_In id (timers w)) Hin).
      unfold scanVideoFrame. rewrite Hr, Hd, Htd, He. reflexivity. }
    split; [rewrite Hw; reflexivity|].
    split; [rewrite Hw; reflexivity|].
    split; [|split; [exact Hp' | exact Hf]].
    rewrite Hw. cbn [setError log trace error]. apply in_or_app.
    right. left. reflexivity.
Qed.

(** ** The phone number in the state *)

Ltac case_handler :=
  repeat match goal with
  | |- context [match ?x with _ => _ end] =>
    match x with
    | extractPhoneNumber _ => fail 1
    | _ => destruct x
    end
  end.

Lemma stopScanning_phone mounted w :
  phoneNumber (stopScanning mounted w) = phoneNumber w.
Proof.
  unfold stopScanning, stopStream, clearInterval. cbv zeta.
  destruct (scanIntervalRef w) as [id|]; [destruct (id =? 0)%N|];
    simpl; destruct (streamRef w); destruct mounted; reflexivity.
Qed.

Lemma found_phone_state data p :
  extractPhoneNumber data = Some p -> phone_state p.
Proof. intros H. right. exists data. exact H. Qed.

Lemma scanVideoFrame_phone t w :
  phone_state (phoneNumber w) -> phone_state (phoneNumber (scanVideoFrame t w)).
Proof.
  intros H. unfold scanVideoFrame. cbv zeta.
  destruct (ready t); [|exact H]. cbn [negb].
  destruct (decoded t) as [data|]; [|exact H].
  destruct (truthy data); [|exact H].
  destruct (extractPhoneNumber data) as [p|] eqn:E; [|exact H].
  destruct (truthy p); [|exact H].
  rewrite stopScanning_phone. simpl. eapply found_phone_state, E.
Qed.

Lemma processFileUpload_phone img f w :
  phone_state (phoneNumber w) ->
  phone_state (phoneNumber (processFileUpload img f w)).
Proof.
  intros H. unfold processFileUpload. cbv zeta.
  destruct img as [| | |[data|]|[|]]; try exact H.
  destruct (truthy data); [|exact H].
  destruct (extractPhoneNumber data) as [p|] eqn:E; [|exact H].
  destruct (truthy p); [|exact H].
  simpl. eapply found_phone_state, E.
Qed.

Lemma sendSms_phone env w : phoneNumber (sendSms env w) = phoneNumber w.
Proof.
  unfold sendSms. cbv zeta.
  destruct (negb (truthy (phoneNumber w)) || (length (phoneNumber w) <? 10));
    [reflexivity|].
  destruct (negb (truthy (trim (smsMessage w)))); [reflexivity|].
  destruct (encodeURIComponent (smsMessage w)); [|reflexivity].
  destruct (isMobileDevice env), (hrefThrows env); reflexivity.
Qed.

(** The phone number of a reachable state is empty or a result of the
    extractor. *)
Lemma reachable_phone_state w : reachable w -> phone_state (phoneNumber w).
Proof.
  induction 1 as [ |p w _ IH|m w _ IH|env w _ IH|mounted w _ IH|t w _ IH
                  |img f w _ IH|input w _ IH|s w _ IH|env w _ IH
                  |mounted w _ IH].
  - left. reflexivity.
  - exact IH.
  - unfold requestCameraPermission, stopStream. cbv zeta.
    destruct m as [stream|err]; [exact IH|]. case_handler; exact IH.
  - unfold startScanning. cbv zeta. case_handler; exact IH.
  - rewrite stopScanning_phone. exact IH.
  - apply scanVideoFrame_phone, IH.
  - unfold handleFileSelect. destruct f as [f|]; [|exact IH].
    destruct (startsWith (fileType f) (js "image/")); [|exact IH].
    apply processFileUpload_phone, IH.
  - unfold handleManualInput.
    destruct (extractPhoneNumber input) as [p|] eqn:E; [|exact IH].
    destruct (truthy p); [|exact IH]. simpl. eapply found_phone_state, E.
  - exact IH.
  - rewrite sendSms_phone. exact IH.
  - unfold resetScanner. cbv zeta. rewrite stopScanning_phone.
    left. reflexivity.
Qed.

Lemma C7_first_validating_tick_witness :
  polling 1%N 7%N started /\
  found_reports
    (trace (run 1%N ([ mkTick false None;
                       mkTick true (Some (js "hello")) ]
                     ++ mkTick true (Some (js "tel:+1-202-555-0172"))
                     :: [ mkTick true (Some (js "5551234567")) ]) started))
  = found_reports (trace started) ++ [js "+12025550172"].
Proof.
  assert (Hp : polling 1%N 7%N started).
  { unfold polling. simpl. repeat split; auto. discriminate. }
  split; [exact Hp|].
  destruct (C7_first_validating_tick 1%N 7%N started Hp) as [H _].
  assert (Hpre : Forall (fun t' => tick_result t' = None)
                   [mkTick false None; mkTick true (Some (js "hello"))]).
  { repeat constructor. }
  assert (Ht : tick_result (mkTick true (Some (js "tel:+1-202-555-0172")))
               = Some (js "+12025550172")).
  { vm_compute. reflexivity. }
  exact (proj1 (H _ _ [mkTick true (Some (js "5551234567"))] _ Hpre Ht)).
Defined.

(** ** The hand-off *)

Lemma phone_state_length p :
  phone_state p -> (digitCount p < 10 <-> p = []) /\
                   (p <> [] -> 10 <= length p).
Proof.
  intros [->|[text H]].
  - split; [|congruence]. split; auto. intros _.
    unfold digitCount. simpl. lia.
  - apply extract_invariant, PhoneCandidate_length in H.
    destruct H as [Hd Hl]. split; [|auto]. split; [lia|].
    intros ->. simpl in Hl. lia.
Qed.

Lemma sendSms_invalid_phone env w :
  phoneNumber w = [] ->
  sendSms env w =
  setIsSendingSms false
    (setError (js "Failed to send SMS: " ++ js "Invalid phone number")
       (setSmsAttempted false (setError [] (setIsSendingSms true w)))).
Proof. intros H. unfold sendSms. rewrite H. reflexivity. Qed.

Lemma sendSms_valid_phone env w :
  phoneNumber w <> [] -> 10 <= length (phoneNumber w) ->
  sendSms env w =
  let w0 := setSmsAttempted false (setError [] (setIsSendingSms true w)) in
  let failed msg w1 :=
    setIsSendingSms false (setError (js "Failed to send SMS: " ++ msg) w1) in
  if negb (truthy (trim (smsMessage w))) then
    failed (js "Message cannot be empty") w0
  else
    match encodeURIComponent (smsMessage w) with
    | None => failed (uriErrorMessage env) w0
    | Some body =>
      let w1 := if isMobileDevice env then w0 else setError warnDesktop w0 in
      let w2 := log (Navigate (smsLink (phoneNumber w) body)) w1 in
      if hrefThrows env then
        failed (js "Failed to open SMS application. Please copy the phone number and message manually.") w2
      else setIsSendingSms false (log (SetTimeout 1000) (setSmsAttempted true w2))
    end.
Proof.
  intros Hne Hl. unfold sendSms. cbv zeta.
  destruct (phoneNumber w) as [|c p] eqn:E; [congruence|].
  cbn [truthy negb orb].
  destruct (Nat.ltb_spec (length (c :: p)) 10); [lia|]. reflexivity.
Qed.

(** C8, amended: with a phone candidate in the state, [sendSms] fails with
    an error and requests no navigation when the trimmed message is empty,
    when the phone number has fewer than ten digits, or when the message
    cannot be URL-encoded; otherwise it requests exactly one navigation,
    to sms:, the phone number, ?body= and the encoded message, and asks
    nothing else of the browser but a timeout. *)
Theorem C8_sendSms_handoff (env : SmsEnv) (w : World) :
  phone_state (phoneNumber w) ->
  let w' := sendSms env w in
  ((truthy (trim (smsMessage w)) = false \/
    digitCount (phoneNumber w) < 10 \/
    encodeURIComponent (smsMessage w) = None) ->
   navigations (trace w') = navigations (trace w) /\
   exists msg, error w' = js "Failed to send SMS: " ++ msg) /\
  (forall body,
     truthy (trim (smsMessage w)) = true ->
     10 <= digitCount (phoneNumber w) ->
     encodeURIComponent (smsMessage w) = Some body ->
     navigations (trace w') =
       navigations (trace w) ++ [smsLink (phoneNumber w) body] /\
     forall e, In e (trace w') ->
       In e (trace w) \/ (exists m, e = SetError m) \/
       e = Navigate (smsLink (phoneNumber w) body) \/
       e = SetTimeout 1000).
Proof.
  intros Hps. cbv zeta.
  destruct (phone_state_length _ Hps) as [Hempty Hlen].
  destruct (phoneNumber w) as [|c p] eqn:Hph.
  - (* no phone number *)
    rewrite (sendSms_invalid_phone env w Hph). split.
    + intros _. split; [|eexists; reflexivity].
      simpl. rewrite !navigations_app. simpl. rewrite !app_nil_r.
      reflexivity.
    + intros body _ Hd. unfold digitCount in Hd. simpl in Hd. lia.
  - assert (Hne : phoneNumber w <> []) by (rewrite Hph; discriminate).
    assert (Hl : 10 <= length (phoneNumber w))
      by (rewrite Hph; apply Hlen; discriminate).
    assert (Hd : ~ digitCount (c :: p) < 10).
    { intros H. apply Hempty in H. discriminate. }
    rewrite (sendSms_valid_phone env w Hne Hl). cbv zeta. rewrite Hph.
    split.
    + intros Hfail.
      destruct (truthy (trim (smsMessage w))) eqn:Ht; cbn [negb].
      * destruct (encodeURIComponent (smsMessage w)) as [body|] eqn:Hen.
        -- destruct Hfail as [H|[H|H]];
             [discriminate | contradiction | discriminate].
        -- split; [|eexists; reflexivity].
           simpl. rewrite !navigations_app. simpl. rewrite !app_nil_r.
           reflexivity.
      * split; [|eexists; reflexivity].
        simpl. rewrite !navigations_app. simpl. rewrite !app_nil_r.
        reflexivity.
    + intros body Ht _ Hen. rewrite Ht, Hen. cbn [negb].
      destruct (isMobileDevice env), (hrefThrows env); simpl;
        rewrite !navigations_app; simpl; rewrite ?app_nil_r;
        (split; [reflexivity|]);
        intros e He;
        repeat (apply in_app_or in He; destruct He as [He|He]);
        auto;
        simpl in He; destruct He as [<-|[]]; eauto.
Qed.

Lemma composed_phone message :
  phoneNumber (composed message) = js "5551234567".
Proof. reflexivity. Qed.

Lemma composed_phone_state message :
  phone_state (phoneNumber (composed message)).
Proof.
  right. exists (js "555 123 4567"). vm_compute. reflexivity.
Qed.

Lemma C8_sendSms_handoff_witness :
  phone_state (phoneNumber (composed (js "on my way"))) /\
  navigations (trace (sendSms v8 (composed (js "on my way")))) =
    navigations (trace (composed (js "on my way")))
    ++ [smsLink (phoneNumber (composed (js "on my way")))
          (js "on%20my%20way")].
Proof.
  split; [apply composed_phone_state|].
  refine (proj1 (proj2 (C8_sendSms_handoff v8 (composed (js "on my way"))
                          (composed_phone_state _))
                   (js "on%20my%20way") _ _ _)).
  - vm_compute. reflexivity.
  - vm_compute. lia.
  - vm_compute. reflexivity.
Defined.

(** C8 as stated fails: with a ten-digit phone number in the state and a
    message that is not empty but holds an unpaired surrogate,
    [encodeURIComponent] raises and [sendSms] reports an error without a
    navigation. *)
Lemma C8_unpaired_surrogate_no_handoff :
  phoneNumber (composed [55296%N]) = js "5551234567" /\
  digitCount (phoneNumber (composed [55296%N])) = 10 /\
  truthy (trim (smsMessage (composed [55296%N]))) = true /\
  navigations (trace (sendSms v8 (composed [55296%N]))) = [] /\
  error (sendSms v8 (composed [55296%N]))
    = js "Failed to send SMS: URI malformed".
Proof. vm_compute. repeat split; reflexivity. Qed.

(** ** File selection *)

Lemma filter_processing_app a b :
  filter isProcessing (a ++ b) = filter isProcessing a ++ filter isProcessing b.
Proof. apply filter_app. Qed.

(** C9: a selected file whose type does not start with image/ only sets
    the error message: file processing is not invoked and the decoder is
    not called; a file whose type starts with image/ is handed to
    [processFileUpload]. *)
Theorem C9_file_type_gate (img : ImageLoad) (f : File) (w : World) :
  (startsWith (fileType f) (js "image/") = false ->
   handleFileSelect img (Some f) w =
     setError (js "Please select an image file (JPG, PNG, GIF, WebP, etc.)") w
   /\ filter isProcessing (trace (handleFileSelect img (Some f) w))
      = filter isProcessing (trace w)) /\
  (startsWith (fileType f) (js "image/") = true ->
   handleFileSelect img (Some f) w = processFileUpload img f w /\
   exists rest,
     trace (handleFileSelect img (Some f) w)
     = trace w ++ ProcessFileUpload f :: rest).
Proof.
  unfold handleFileSelect. split; intros H; rewrite H.
  - split; [reflexivity|]. cbn [setError log trace].
    rewrite filter_processing_app. simpl. apply app_nil_r.
  - split; [reflexivity|]. unfold processFileUpload. cbv zeta.
    destruct img as [| | |[code|]|[|]]; cbn [trace log setError
      setIsProcessingFile setLastScannedContent setScanned setPhoneNumber].
    1-3: rewrite <- !app_assoc; simpl; eauto.
    + destruct (truthy code).
      * destruct (extractPhoneNumber code) as [p|];
          [destruct (truthy p)|]; simpl; rewrite <- !app_assoc; simpl;
          eauto.
      * simpl. rewrite <- !app_assoc. simpl. eauto.
    + simpl. rewrite <- !app_assoc. simpl. eauto.
    + rewrite <- !app_assoc. simpl. eauto.
    + rewrite <- !app_assoc. simpl. eauto.
Qed.

Lemma C9_file_type_gate_witness :
  startsWith (js "application/pdf") (js "image/") = false /\
  filter isProcessing
    (trace (handleFileSelect (Loaded (Some (js "5551234567")))
              (Some (mkFile (js "scan.pdf") (js "application/pdf")))
              initial))
  = filter isProcessing (trace initial).
Proof.
  split; [reflexivity|].
  exact (proj2 (proj1 (C9_file_type_gate
                         (Loaded (Some (js "5551234567")))
                         (mkFile (js "scan.pdf") (js "application/pdf"))
                         initial) eq_refl)).
Defined.

Example pdf_is_rejected :
  let w := handleFileSelect (Loaded (Some (js "5551234567")))
             (Some (mkFile (js "scan.pdf") (js "application/pdf"))) initial in
  trace w =
    [SetError (js "Please select an image file (JPG, PNG, GIF, WebP, etc.)")]
  /\ phoneNumber w = [].
Proof. vm_compute. auto. Qed.

(** ** The camera permission *)

Lemma jseqb_eq a b : jseqb a b = true <-> a = b.
Proof.
  revert b. induction a as [|x a IH]; intros [|y b]; simpl;
    try (split; [discriminate | congruence]); [tauto|].
  rewrite andb_true_iff, N.eqb_eq, IH. split.
  - intros [-> ->]. reflexivity.
  - intros H. injection H as -> ->. auto.
Qed.

(** C10: when [getUserMedia] fails, [requestCameraPermission] returns
    [false]; on NotAllowedError the permission state becomes [denied], on
    any other failure it stays what it was and only the error message
    tells the failures apart; nothing else of the state changes. *)
Theorem C10_permission_failure (err : DOMException) (w : World) :
  let w' := fst (requestCameraPermission (inr err) w) in
  snd (requestCameraPermission (inr err) w) = false /\
  same_but_error_and_permission w w' /\
  (errName err = js "NotAllowedError" ->
   permissionState w' = denied /\
   error w' = js "Camera access denied. Please allow camera access in your browser settings.") /\
  (errName err <> js "NotAllowedError" ->
   permissionState w' = permissionState w /\
   error w' = if jseqb (errName err) (js "NotFoundError")
              then js "No camera found on this device."
              else js "Camera access failed: " ++ errMessage err).
Proof.
  cbv zeta. unfold requestCameraPermission. cbv zeta.
  destruct (jseqb (errName err) (js "NotAllowedError")) eqn:E.
  - apply jseqb_eq in E. cbn [fst snd].
    repeat split; try reflexivity; intros; contradiction.
  - assert (Hne : errName err <> js "NotAllowedError").
    { intros H. apply jseqb_eq in H. congruence. }
    destruct (jseqb (errName err) (js "NotFoundError")); cbn [fst snd];
      repeat split; try reflexivity; intros; contradiction.
Qed.

Lemma C10_permission_failure_witness :
  errName (mkError (js "NotFoundError") (js "Requested device not found"))
    <> js "NotAllowedError" /\
  permissionState
    (fst (requestCameraPermission
            (inr (mkError (js "NotFoundError")
                    (js "Requested device not found")))
            (setPermissionState prompt initial)))
  = permissionState (setPermissionState prompt initial).
Proof.
  assert (Hne : errName (mkError (js "NotFoundError")
                           (js "Requested device not found"))
                <> js "NotAllowedError") by discriminate.
  split; [exact Hne|].
  destruct (C10_permission_failure
              (mkError (js "NotFoundError") (js "Requested device not found"))
              (setPermissionState prompt initial)) as (_ & _ & _ & Hother).
  exact (proj1 (Hother Hne)).
Defined.

Example permission_failures :
  permissionState
    (fst (requestCameraPermission
            (inr (mkError (js "NotAllowedError") (js "Permission denied")))
            initial)) = denied /\
  permissionState
    (fst (requestCameraPermission
            (inr (mkError (js "NotFoundError") (js "Requested device not found")))
            initial)) = unknown /\
  error
    (fst (requestCameraPermission
            (inr (mkError (js "NotReadableError") (js "Device in use")))
            initial)) = js "Camera access failed: Device in use".
Proof. vm_compute. auto. Qed.

(** * Further properties *)

(** ** What a candidate is made of *)

(** A literal pattern matches the strings that start with it. *)
Lemma bt_literal ic cs :
  forall n s k,
    bt ic (fold_right (fun c r => Seq (Atom [CChar c]) r) Eps cs) n s k
    = if ci_prefix ic cs s then k (n + length cs) (skipn (length cs) s)
      else None.
Proof.
  induction cs as [|c cs IH]; intros n s k.
  - simpl. rewrite Nat.add_0_r. reflexivity.
  - cbn [fold_right bt]. destruct s as [|x s]; [reflexivity|].
    cbn [ci_prefix in_class existsb in_item]. rewrite orb_false_r.
    destruct (canonicalize ic c =? canonicalize ic x)%N; [|reflexivity].
    rewrite IH. cbn [andb length skipn]. rewrite Nat.add_succ_r.
    reflexivity.
Qed.

Lemma exec_prefix m :
  exec_at true pat_prefix m =
    if ci_prefix true (js "tel:") m then Some 4
    else if ci_prefix true (js "phone:") m then Some 6
    else None.
Proof.
  unfold exec_at, pat_prefix, lit. cbn [bt]. rewrite !bt_literal.
  destruct (ci_prefix true (js "tel:") m); [reflexivity|].
  destruct (ci_prefix true (js "phone:") m); reflexivity.
Qed.

Lemma canonical_match_not_digit ic x c :
  (x < 48 \/ 57 < x)%N ->
  (canonicalize ic x =? canonicalize ic c)%N = true ->
  isDigit c = false.
Proof.
  intros Hx H. destruct (isDigit c) eqn:E; [|reflexivity].
  rewrite (digit_not_char ic c x E Hx) in H. discriminate.
Qed.

Lemma strip_cons_other c s :
  isDigit c = false -> strip_non_digits (c :: s) = strip_non_digits s.
Proof. intros H. unfold strip_non_digits. simpl. rewrite H. reflexivity. Qed.

Lemma strip_app a b :
  strip_non_digits (a ++ b) = strip_non_digits a ++ strip_non_digits b.
Proof. apply filter_app. Qed.

Lemma space_not_digit c : isSpace c = true -> isDigit c = false.
Proof.
  intros H. destruct (isDigit c) eqn:E; [|reflexivity].
  rewrite (digit_not_space c E) in H. discriminate.
Qed.

(** A literal without digits, removed from the start, takes no digit
    along. *)
Lemma strip_skip_literal ic cs :
  Forall (fun x => (x < 48 \/ 57 < x)%N) cs ->
  forall s, ci_prefix ic cs s = true ->
            strip_non_digits (skipn (length cs) s) = strip_non_digits s.
Proof.
  induction 1 as [|x cs Hx _ IH]; intros s H; [reflexivity|].
  destruct s as [|c s]; [discriminate|]. cbn [ci_prefix] in H.
  apply andb_true_iff in H. destruct H as [Hc Hs].
  cbn [length skipn]. rewrite (IH s Hs).
  symmetry. apply strip_cons_other.
  eapply canonical_match_not_digit; eassumption.
Qed.

(** Neither the prefix [tel:] or [phone:] nor the white space around a
    match holds a digit: the digits of a candidate are those of the
    match. *)
Lemma strip_prefix_digits m :
  strip_non_digits (replace_anchored true pat_prefix m) = strip_non_digits m.
Proof.
  unfold replace_anchored. rewrite exec_prefix.
  destruct (ci_prefix true (js "tel:") m) eqn:Et.
  - apply (strip_skip_literal true (js "tel:")); [|exact Et].
    repeat (apply Forall_cons; [vm_compute; auto|]). apply Forall_nil.
  - destruct (ci_prefix true (js "phone:") m) eqn:Ep; [|reflexivity].
    apply (strip_skip_literal true (js "phone:")); [|exact Ep].
    repeat (apply Forall_cons; [vm_compute; auto|]). apply Forall_nil.
Qed.

Lemma strip_trimStart s : strip_non_digits (trimStart s) = strip_non_digits s.
Proof.
  induction s as [|c s IH]; [reflexivity|]. simpl.
  destruct (isSpace c) eqn:E; [|reflexivity].
  rewrite IH. symmetry. apply strip_cons_other, space_not_digit, E.
Qed.

Lemma strip_rev s : strip_non_digits (rev s) = rev (strip_non_digits s).
Proof.
  unfold strip_non_digits. induction s as [|c s IH]; [reflexivity|].
  simpl. rewrite filter_app, IH. simpl.
  destruct (isDigit c); simpl; [reflexivity | apply app_nil_r].
Qed.

Lemma strip_trim s : strip_non_digits (trim s) = strip_non_digits s.
Proof.
  unfold trim, trimEnd.
  rewrite strip_rev, strip_trimStart, strip_rev, rev_involutive.
  apply strip_trimStart.
Qed.

Lemma startsWith_plus s :
  startsWith s [plus] = true -> exists t, s = plus :: t.
Proof.
  destruct s as [|c s]; [discriminate|]. cbn [startsWith].
  rewrite andb_true_r. intros H. apply N.eqb_eq in H. subst.
  exists s. reflexivity.
Qed.

(** One candidate: the digits of the match, accepted when there are ten
    to fifteen of them, behind a [+] when the match, its prefix and white
    space apart, starts with one or holds eleven digits or more. *)
Lemma candidate_shape m :
  candidate m =
    shape (startsWith (trim (replace_anchored true pat_prefix m)) [plus])
          (strip_non_digits m).
Proof.
  unfold candidate, shape. cbv zeta.
  set (phone := trim (replace_anchored true pat_prefix m)).
  assert (Hd : strip_non_digits phone = strip_non_digits m).
  { unfold phone. rewrite strip_trim. apply strip_prefix_digits. }
  destruct (startsWith phone [plus]) eqn:Hp; cbv iota.
  - destruct (startsWith_plus phone Hp) as [t Ht].
    assert (Ht' : strip_non_digits (substring_from 1 phone)
                  = strip_non_digits m).
    { rewrite <- Hd, Ht. unfold substring_from. cbn [skipn].
      symmetry. apply strip_cons_other. reflexivity. }
    rewrite Ht'.
    change (drop_plus (plus :: strip_non_digits m))
      with (strip_non_digits m).
    reflexivity.
  - rewrite Hd, (drop_plus_digits _ (digits_strip m)). cbn [orb].
    destruct ((10 <=? length (strip_non_digits m))
              && (length (strip_non_digits m) <=? 15)); [|reflexivity].
    destruct (11 <=? length (strip_non_digits m)); reflexivity.
Qed.

(** ** Where a result comes from *)

Lemma infix_refl s : infix s s.
Proof. exists [], []. simpl. symmetry. apply app_nil_r. Qed.

Lemma infix_cons c m s : infix m s -> infix m (c :: s).
Proof. intros (pre & post & ->). exists (c :: pre), post. reflexivity. Qed.

Lemma infix_firstn n s : infix (firstn n s) s.
Proof.
  exists [], (skipn n s). simpl. symmetry. apply firstn_skipn.
Qed.

Lemma infix_strip m s :
  infix m s -> infix (strip_non_digits m) (strip_non_digits s).
Proof.
  intros (pre & post & ->).
  exists (strip_non_digits pre), (strip_non_digits post).
  rewrite !strip_app. reflexivity.
Qed.

Lemma infix_length m s : infix m s -> length m <= length s.
Proof. intros (pre & post & ->). rewrite !length_app. lia. Qed.

(** Every match of a global pattern is a block of the text. *)
Lemma match_all_infix ic r s :
  forall skip m, In m (match_all ic r skip s) -> infix m s.
Proof.
  induction s as [|c s IH]; intros skip m H.
  - destruct skip as [|k]; [|contradiction]. cbn [match_all] in H.
    destruct (exec_at ic r []) as [len|]; [|contradiction].
    destruct H as [<-|[]]. apply infix_firstn.
  - destruct skip as [|k]; cbn [match_all] in H.
    + destruct (exec_at ic r (c :: s)) as [len|].
      * destruct H as [<-|H]; [apply infix_firstn|].
        apply infix_cons. eapply IH, H.
      * apply infix_cons. eapply IH, H.
    + apply infix_cons. eapply IH, H.
Qed.

Lemma js_match_infix ic r text ms m :
  js_match ic r text = Some ms -> In m ms -> infix m text.
Proof.
  unfold js_match. intros H Hin.
  destruct (match_all ic r 0 text) as [|m0 ms0] eqn:E; [discriminate|].
  injection H as <-. apply (match_all_infix ic r text 0). rewrite E.
  exact Hin.
Qed.

Lemma first_candidate_source ms p :
  first_candidate ms = Some p -> exists m, In m ms /\ candidate m = Some p.
Proof.
  induction ms as [|m ms IH]; cbn [first_candidate]; [discriminate|].
  destruct (candidate m) as [q|] eqn:E.
  - intros H. injection H as ->. exists m. split; [left; reflexivity|exact E].
  - intros H. destruct (IH H) as (m' & Hin & Hc).
    exists m'. split; [right; exact Hin | exact Hc].
Qed.

(** A result of the pattern loops is the candidate of a block of the
    text. *)
Lemma scan_patterns_source ps text p :
  scan_patterns ps text = Some p ->
  exists m, infix m text /\ candidate m = Some p.
Proof.
  induction ps as [|[ic r] ps IH]; cbn [scan_patterns]; [discriminate|].
  destruct (js_match ic r text) as [ms|] eqn:Hm; [|exact IH].
  destruct (first_candidate ms) as [q|] eqn:Hf; [|exact IH].
  intros H. injection H as ->.
  destruct (first_candidate_source ms p Hf) as (m & Hin & Hc).
  exists m. split; [eapply js_match_infix; eassumption | exact Hc].
Qed.

Lemma shape_some plusFirst d p :
  shape plusFirst d = Some p ->
  10 <= length d <= 15 /\
  (p = plus :: d \/ (p = d /\ plusFirst = false /\ length d = 10)).
Proof.
  unfold shape.
  destruct (Nat.leb_spec 10 (length d)) as [Hlo|]; [|discriminate].
  destruct (Nat.leb_spec (length d) 15) as [Hhi|]; [|discriminate].
  cbn [andb]. destruct plusFirst; cbn [orb].
  - intros E. injection E as <-. auto.
  - destruct (Nat.leb_spec 11 (length d)) as [H11|H11];
      intros E; injection E as <-.
    + auto.
    + split; [lia|]. right. repeat split. lia.
Qed.

(** Every result is made of the digits of one block of the text, or of
    all its digits. *)
Lemma extract_source text p :
  extractPhoneNumber text = Some p ->
  exists m plusFirst,
    infix m text /\ shape plusFirst (strip_non_digits m) = Some p.
Proof.
  unfold extractPhoneNumber.
  destruct (scan_patterns phonePatterns text) as [q|] eqn:E.
  - intros H. injection H as ->.
    destruct (scan_patterns_source _ _ _ E) as (m & Hin & Hc).
    rewrite candidate_shape in Hc. eauto.
  - intros H. exists text, false. split; [apply infix_refl | exact H].
Qed.

Lemma extract_few_digits text :
  ndigits text < 10 -> extractPhoneNumber text = None.
Proof.
  intros Hlt. destruct (extractPhoneNumber text) as [p|] eqn:E;
    [|reflexivity].
  destruct (extract_source text p E) as (m & pf & Hin & Hs).
  apply shape_some in Hs. destruct Hs as [Hl _].
  apply infix_strip, infix_length in Hin. unfold ndigits in Hlt. lia.
Qed.

Lemma extract_some_of_digit_count text :
  10 <= ndigits text <= 15 -> exists p, extractPhoneNumber text = Some p.
Proof.
  intros H. unfold extractPhoneNumber.
  destruct (scan_patterns phonePatterns text) as [p|]; [eauto|].
  unfold fallback, ndigits in *. cbv zeta.
  destruct (Nat.leb_spec 10 (length (strip_non_digits text))); [|lia].
  destruct (Nat.leb_spec (length (strip_non_digits text)) 15); [|lia].
  cbn [andb]. destruct (11 <=? length (strip_non_digits text)); eauto.
Qed.

Lemma bare_result_ten_digits text p :
  extractPhoneNumber text = Some p ->
  startsWith p [plus] = false ->
  digits p = true /\ length p = 10.
Proof.
  intros E Hnp. destruct (extract_source text p E) as (m & pf & Hin & Hs).
  apply shape_some in Hs. destruct Hs as [_ [->|(-> & _ & Hl)]].
  - cbn [startsWith] in Hnp. rewrite N.eqb_refl in Hnp. discriminate.
  - split; [apply digits_strip | exact Hl].
Qed.

(** X1: a text with fewer than ten digits, wherever they stand, yields no
    phone number. *)
Theorem extract_needs_ten_digits (text : jsstring) :
  ndigits text < 10 -> extractPhoneNumber text = None.
Proof. apply extract_few_digits. Qed.

Lemma extract_needs_ten_digits_witness :
  ndigits (js "call 555-1234 now") < 10 /\
  extractPhoneNumber (js "call 555-1234 now") = None.
Proof.
  assert (H : ndigits (js "call 555-1234 now") < 10) by (vm_compute; lia).
  split; [exact H | exact (extract_needs_ten_digits _ H)].
Defined.

(** X2: the digits of a result stand in the text, in the same order and
    with no other digit of the text between them; the result adds at most
    a [+] in front. *)
Theorem extract_digits_from_text (text p : jsstring) :
  extractPhoneNumber text = Some p ->
  infix (drop_plus p) (strip_non_digits text) /\
  (p = drop_plus p \/ p = plus :: drop_plus p).
Proof.
  intros E. destruct (extract_source text p E) as (m & pf & Hin & Hs).
  apply shape_some in Hs. destruct Hs as [_ Hp].
  assert (Hd : drop_plus p = strip_non_digits m).
  { destruct Hp as [->|[-> _]]; [reflexivity|].
    apply drop_plus_digits, digits_strip. }
  rewrite Hd. split; [apply infix_strip, Hin|].
  destruct Hp as [->|[-> _]]; auto.
Qed.

Lemma extract_digits_from_text_witness :
  infix (drop_plus (js "+12025550172"))
        (strip_non_digits (js "tel:+1-202-555-0172")) /\
  (js "+12025550172" = drop_plus (js "+12025550172") \/
   js "+12025550172" = plus :: drop_plus (js "+12025550172")).
Proof.
  apply (extract_digits_from_text (js "tel:+1-202-555-0172")).
  vm_compute. reflexivity.
Defined.

(** X3: a result without a leading [+] has exactly ten digits; a result
    of eleven to fifteen digits always carries a [+]. *)
Theorem extract_bare_result_ten_digits (text p : jsstring) :
  extractPhoneNumber text = Some p ->
  startsWith p [plus] = false ->
  digits p = true /\ length p = 10.
Proof. apply bare_result_ten_digits. Qed.

Lemma extract_bare_result_ten_digits_witness :
  digits (js "5551234567") = true /\ length (js "5551234567") = 10.
Proof.
  apply (extract_bare_result_ten_digits (js "phone: 555 123 4567")).
  - vm_compute. reflexivity.
  - reflexivity.
Defined.

(** ** Formatted numbers *)

(** A greedy repetition over a run [pre] of the class that ends there, or
    at the upper bound: it takes the whole run when the continuation
    accepts that. *)
Lemma rep_run p pre :
  forall lo hi n s k e,
    forallb p pre = true -> lo <= length pre ->
    match hi with Some h => length pre <= h | None => True end ->
    hi = Some (length pre) \/ head_avoids p s = true ->
    k (n + length pre) s = Some e ->
    rep p lo hi n (pre ++ s) k = Some e.
Proof.
  induction pre as [|c pre IH]; intros lo hi n s k e Hp Hlo Hhi Hend Hk.
  - simpl in Hlo, Hk. rewrite Nat.add_0_r in Hk.
    assert (lo = 0) by lia. subst lo. cbn [app].
    destruct Hend as [->|Hend]; [rewrite rep_done; exact Hk|].
    destruct s as [|x s].
    + destruct hi as [[|h]|]; exact Hk.
    + cbn [head_avoids] in Hend. apply negb_true_iff in Hend.
      destruct hi as [[|h]|]; cbn [rep]; rewrite ?Hend; exact Hk.
  - cbn [forallb] in Hp. apply andb_true_iff in Hp. destruct Hp as [Hc Hp].
    cbn [length] in *. cbn [app].
    assert (Hrec : rep p (pred lo) (option_map pred hi) (S n) (pre ++ s) k
                   = Some e).
    { apply IH; auto.
      - lia.
      - destruct hi as [h|]; cbn [option_map]; [lia | exact I].
      - destruct Hend as [->|Hend]; [left; reflexivity | right; exact Hend].
      - rewrite <- Hk. f_equal. lia. }
    destruct hi as [[|h]|]; [lia| |]; cbn [rep option_map]; rewrite Hc;
      cbn [option_map] in Hrec; rewrite Hrec; reflexivity.
Qed.

Lemma opt_present ic r n s k e :
  bt ic r n s (fun n' s' => if n' =? n then None else k n' s') = Some e ->
  bt ic (Opt r) n s k = Some e.
Proof. intros H. cbn [bt]. rewrite H. reflexivity. Qed.

(** The country group needs a [+]. *)
Lemma country_absent n s k :
  head_avoids (N.eqb plus) s = true -> bt false country n s k = k n s.
Proof.
  intros H. unfold country, seqs. cbn [bt fold_right].
  destruct s as [|x s]; [reflexivity|].
  cbn [head_avoids] in H. apply negb_true_iff in H.
  unfold in_class. cbn [existsb in_item canonicalize andb].
  change (ch "+") with plus. rewrite H. reflexivity.
Qed.

Lemma head_avoids_run p q a s :
  forallb q a = true -> a <> [] ->
  (forall x, q x = true -> p x = false) ->
  head_avoids p (a ++ s) = true.
Proof.
  intros Ha Hne Hq. destruct a as [|x a]; [congruence|].
  cbn [forallb] in Ha. apply andb_true_iff in Ha.
  cbn [app head_avoids]. rewrite (Hq x); [reflexivity | apply Ha].
Qed.

Lemma head_avoids_optional p q o s :
  optional q o = true ->
  (forall x, q x = true -> p x = false) ->
  head_avoids p s = true ->
  head_avoids p (o ++ s) = true.
Proof.
  intros Ho Hq Hs. destruct o as [|x [|y o]]; [exact Hs| |discriminate].
  cbn [optional] in Ho. cbn [app head_avoids].
  rewrite (Hq x Ho). reflexivity.
Qed.

Lemma optional_forallb p o : optional p o = true -> forallb p o = true.
Proof.
  destruct o as [|x [|y o]]; [reflexivity| |discriminate].
  cbn [optional forallb]. intros ->. reflexivity.
Qed.

Lemma optional_length p o : optional p o = true -> length o <= 1.
Proof. destruct o as [|x [|y o]]; simpl; [lia|lia|discriminate]. Qed.

Lemma optional_strip p o :
  optional p o = true -> (forall x, p x = true -> isDigit x = false) ->
  strip_non_digits o = [].
Proof.
  intros Ho Hp. destruct o as [|x [|y o]]; [reflexivity| |discriminate].
  cbn [optional] in Ho. apply strip_cons_other, Hp, Ho.
Qed.

Lemma sep_cases x :
  in_class false sep x = true -> x = ch "-" \/ x = ch "." \/ isSpace x = true.
Proof.
  unfold in_class, sep. cbn [existsb in_item canonicalize andb].
  rewrite orb_false_r, !orb_true_iff, !N.eqb_eq. intuition auto.
Qed.

Lemma sep_not_digit x : in_class false sep x = true -> isDigit x = false.
Proof.
  intros H. destruct (sep_cases x H) as [->|[->|Hs]]; try reflexivity.
  apply space_not_digit, Hs.
Qed.

Lemma sep_not_char y x :
  y <> ch "-" -> y <> ch "." -> isSpace y = false ->
  in_class false sep x = true -> (y =? x)%N = false.
Proof.
  intros H1 H2 H3 H. apply N.eqb_neq. intros ->.
  destruct (sep_cases x H) as [E|[E|E]]; congruence.
Qed.

Lemma class_d09 x : in_class false d09 x = isDigit x.
Proof. unfold in_class, d09. cbn [existsb in_item]. apply orb_false_r. Qed.

Lemma class_CDigit x : in_class false [CDigit] x = isDigit x.
Proof. unfold in_class. cbn [existsb in_item]. apply orb_false_r. Qed.

Lemma class_char c x : in_class false [CChar c] x = (c =? x)%N.
Proof.
  unfold in_class. cbn [existsb in_item canonicalize andb].
  apply orb_false_r.
Qed.

Lemma forallb_ext_class (p q : char -> bool) l :
  (forall x, p x = q x) -> forallb p l = forallb q l.
Proof.
  intros H. induction l as [|x l IH]; [reflexivity|].
  cbn [forallb]. rewrite H, IH. reflexivity.
Qed.

Lemma digit_not_eq c x : isDigit x = true -> (c < 48 \/ 57 < c)%N ->
                         (c =? x)%N = false.
Proof.
  intros H Hc. apply isDigit_bounds in H. apply N.eqb_neq. lia.
Qed.

Lemma rep_optional p o s n k e :
  optional p o = true -> head_avoids p s = true ->
  k (n + length o) s = Some e ->
  rep p 0 (Some 1) n (o ++ s) k = Some e.
Proof.
  intros Ho Hs Hk. apply rep_run; auto.
  - apply optional_forallb, Ho.
  - lia.
  - apply (optional_length p), Ho.
Qed.

Lemma digits_d09 a : digits a = true -> forallb (in_class false d09) a = true.
Proof.
  intros H. rewrite (forallb_ext_class _ isDigit a class_d09). exact H.
Qed.

Lemma rep_d09 m a s n k e :
  digits a = true -> length a = m ->
  k (n + m) s = Some e ->
  rep (in_class false d09) m (Some m) n (a ++ s) k = Some e.
Proof.
  intros Ha <- Hk. apply rep_run; auto. apply digits_d09, Ha.
Qed.

(** A run of digits starts outside every class without digits. *)
Lemma head_digits p a s :
  digits a = true -> 0 < length a ->
  (forall x, isDigit x = true -> p x = false) ->
  head_avoids p (a ++ s) = true.
Proof.
  intros Ha Hl Hp. apply (head_avoids_run p isDigit); auto.
  intros ->. simpl in Hl. lia.
Qed.

Lemma digit_outside_char c x :
  (c < 48 \/ 57 < c)%N -> isDigit x = true ->
  in_class false [CChar c] x = false.
Proof. intros Hc Hx. rewrite class_char. apply digit_not_eq; assumption. Qed.

Lemma digit_outside_sep x :
  isDigit x = true -> in_class false sep x = false.
Proof. apply digit_not_sep. Qed.

Lemma sep_outside_char c x :
  c <> ch "-" -> c <> ch "." -> isSpace c = false ->
  in_class false sep x = true -> in_class false [CChar c] x = false.
Proof. intros. rewrite class_char. apply sep_not_char; assumption. Qed.

Lemma char_outside_char c d x :
  c <> d -> in_class false [CChar d] x = true ->
  in_class false [CChar c] x = false.
Proof.
  rewrite !class_char. intros Hne H. apply N.eqb_eq in H. subst.
  apply N.eqb_neq. exact Hne.
Qed.

Lemma char_outside_sep d x :
  in_class false sep d = false -> in_class false [CChar d] x = true ->
  in_class false sep x = false.
Proof.
  rewrite class_char. intros Hd H. apply N.eqb_eq in H. subst. exact Hd.
Qed.

Lemma char_not_digit d x :
  isDigit d = false -> in_class false [CChar d] x = true ->
  isDigit x = false.
Proof.
  rewrite class_char. intros Hd H. apply N.eqb_eq in H. subst. exact Hd.
Qed.

Section Formatted.

Variables (lp a rp s1 b s2 c rest : jsstring).
Hypothesis Hlp : optchar (ch "(") lp = true.
Hypothesis Hrp : optchar (ch ")") rp = true.
Hypothesis Ha : digits a = true.
Hypothesis La : length a = 3.
Hypothesis Hb : digits b = true.
Hypothesis Lb : length b = 3.
Hypothesis Hc : digits c = true.
Hypothesis Lc : length c = 4.
Hypothesis Hs1 : optsep s1 = true.
Hypothesis Hs2 : optsep s2 = true.

Local Abbreviation number := (national lp a rp s1 b s2 c).

Lemma national_length :
  length number
  = length lp + 3 + length rp + length s1 + 3 + length s2 + 4.
Proof. unfold national. rewrite !length_app, La, Lb, Lc. lia. Qed.

Lemma national_tail_matches n k e :
  k (n + length number) rest = Some e ->
  bt false national_tail n (number ++ rest) k = Some e.
Proof.
  intros Hk. unfold national_tail, seqs, national.
  rewrite <- !app_assoc. cbn [fold_right bt].
  apply rep_optional; [exact Hlp| |].
  { apply head_digits; [exact Ha | lia|].
    intros x Hx. apply digit_outside_char; [vm_compute; auto | exact Hx]. }
  apply rep_d09; [exact Ha | exact La|].
  apply rep_optional; [exact Hrp| |].
  { apply (head_avoids_optional _ (in_class false sep)); [exact Hs1| |].
    - intros x Hx. apply sep_outside_char; auto; discriminate.
    - apply head_digits; [exact Hb | lia|].
      intros x Hx. apply digit_outside_char; [vm_compute; auto | exact Hx]. }
  apply rep_optional; [exact Hs1| |].
  { apply head_digits; [exact Hb | lia | apply digit_outside_sep]. }
  apply rep_d09; [exact Hb | exact Lb|].
  apply rep_optional; [exact Hs2| |].
  { apply head_digits; [exact Hc | lia | apply digit_outside_sep]. }
  apply rep_d09; [exact Hc | exact Lc|].
  cbn [bt]. rewrite <- Hk. f_equal. rewrite national_length. lia.
Qed.

(** A national number starts with a digit or an opening parenthesis. *)
Lemma national_head :
  exists x t, number = x :: t /\ (isDigit x = true \/ x = ch "(").
Proof.
  unfold national. destruct lp as [|x [|y l]]; [| |discriminate Hlp].
  - destruct a as [|x t]; [discriminate La|].
    exists x, (t ++ rp ++ s1 ++ b ++ s2 ++ c). split; [reflexivity|].
    left. apply digits_cons in Ha. apply Ha.
  - exists x, (a ++ rp ++ s1 ++ b ++ s2 ++ c). split; [reflexivity|].
    right. unfold optchar in Hlp. cbn [optional] in Hlp.
    rewrite class_char in Hlp. apply N.eqb_eq in Hlp. auto.
Qed.

Lemma national_head_avoids p :
  (forall x, isDigit x = true -> p x = false) ->
  p (ch "(") = false ->
  head_avoids p (number ++ rest) = true.
Proof.
  intros Hd Hp. destruct national_head as (x & t & -> & [Hx| ->]);
    cbn [app head_avoids]; [rewrite (Hd x Hx) | rewrite Hp]; reflexivity.
Qed.

Lemma national_strip : strip_non_digits number = a ++ b ++ c.
Proof.
  unfold national. rewrite !strip_app.
  rewrite (optional_strip _ lp Hlp), (optional_strip _ rp Hrp),
    (optional_strip _ s1 Hs1), (optional_strip _ s2 Hs2).
  - rewrite !strip_digits by assumption. reflexivity.
  - apply sep_not_digit.
  - apply sep_not_digit.
  - intros x. apply char_not_digit. reflexivity.
  - intros x. apply char_not_digit. reflexivity.
Qed.

Lemma exec_standard_national :
  exec_at false pat_standard (number ++ rest) = Some (length number).
Proof.
  unfold exec_at.
  change pat_standard with (Seq country national_tail). cbn [bt].
  rewrite country_absent.
  - apply national_tail_matches. reflexivity.
  - apply national_head_avoids; [|reflexivity].
    intros x Hx. apply digit_not_eq; [exact Hx | vm_compute; auto].
Qed.

(** Behind a country code of one to three digits, when a separator or
    the parenthesis ends the code. *)
Lemma exec_standard_international cc s0 :
  digits cc = true -> 1 <= length cc <= 3 -> optsep s0 = true ->
  s0 <> [] \/ lp <> [] ->
  exec_at false pat_standard (plus :: cc ++ s0 ++ number ++ rest)
  = Some (length (plus :: cc ++ s0 ++ number)).
Proof.
  intros Hcc Lcc Hs0 Hend. unfold exec_at.
  change pat_standard with (Seq country national_tail). cbn [bt].
  unfold country. apply opt_present. unfold seqs. cbn [fold_right bt].
  change (in_class false [CChar (ch "+")] plus) with true. cbv iota.
  apply rep_run.
  - rewrite (forallb_ext_class _ isDigit cc class_CDigit). exact Hcc.
  - lia.
  - lia.
  - right. destruct s0 as [|x [|y l]]; [| |discriminate Hs0].
    + destruct Hend as [H|H]; [congruence|].
      destruct lp as [|y [|z l]]; [congruence| |discriminate Hlp].
      unfold optchar in Hlp. cbn [optional] in Hlp.
      rewrite class_char in Hlp. apply N.eqb_eq in Hlp. subst y.
      reflexivity.
    + cbn [app head_avoids]. rewrite class_CDigit.
      unfold optsep in Hs0. cbn [optional] in Hs0.
      rewrite (sep_not_digit x Hs0). reflexivity.
  - apply rep_optional; [exact Hs0| |].
    { apply national_head_avoids; [apply digit_outside_sep | reflexivity]. }
    cbn [bt].
    replace (1 + length cc + length s0 =? 0) with false
      by (symmetry; apply Nat.eqb_neq; lia).
    apply national_tail_matches. f_equal.
    cbn [length]. rewrite !length_app. lia.
Qed.

End Formatted.

(** No match of the standard pattern starts at an inert code unit. *)
Lemma exec_standard_inert x s :
  inert x = true -> exec_at false pat_standard (x :: s) = None.
Proof.
  unfold inert. rewrite negb_true_iff, !orb_false_iff.
  intros [[Hd Hp] Hq]. unfold exec_at.
  change pat_standard with (Seq country national_tail). cbn [bt].
  rewrite country_absent
    by (cbn [head_avoids]; rewrite N.eqb_sym, Hp; reflexivity).
  unfold national_tail, seqs. cbn [fold_right bt rep].
  rewrite class_char, N.eqb_sym, Hq, class_d09, Hd. reflexivity.
Qed.

Lemma match_all_inert pre s :
  forallb inert pre = true ->
  match_all false pat_standard 0 (pre ++ s) = match_all false pat_standard 0 s.
Proof.
  induction pre as [|x pre IH]; [reflexivity|]. cbn [forallb].
  rewrite andb_true_iff. intros [Hx Hpre]. cbn [app match_all].
  rewrite (exec_standard_inert x _ Hx). apply IH, Hpre.
Qed.

Lemma match_all_first ic r s len :
  exec_at ic r s = Some len ->
  exists ms, match_all ic r 0 s = firstn len s :: ms.
Proof.
  intros H. destruct s as [|x s]; cbn [match_all]; rewrite H; eauto.
Qed.

Lemma firstn_exact (m s : jsstring) : firstn (length m) (m ++ s) = m.
Proof.
  rewrite firstn_app, Nat.sub_diag, firstn_all. cbn [firstn].
  apply app_nil_r.
Qed.

(** When the first match of the standard pattern validates, it is the
    result. *)
Lemma extract_first_standard pre m s p :
  forallb inert pre = true ->
  exec_at false pat_standard (m ++ s) = Some (length m) ->
  candidate m = Some p ->
  extractPhoneNumber (pre ++ m ++ s) = Some p.
Proof.
  intros Hpre He Hc.
  destruct (match_all_first _ _ _ _ He) as [ms Hms].
  rewrite firstn_exact in Hms.
  unfold extractPhoneNumber, phonePatterns. cbn [scan_patterns].
  unfold js_match. rewrite (match_all_inert pre _ Hpre), Hms.
  cbn [first_candidate]. rewrite Hc. reflexivity.
Qed.

Lemma trimStart_snoc l x :
  isSpace x = false -> trimStart (l ++ [x]) = trimStart l ++ [x].
Proof.
  intros Hx. induction l as [|y l IH]; cbn [app trimStart].
  - rewrite Hx. reflexivity.
  - destruct (isSpace y); [exact IH | reflexivity].
Qed.

Lemma trim_head x t :
  isSpace x = false -> trim (x :: t) = x :: trimEnd t.
Proof.
  intros Hx. unfold trim. cbn [trimStart]. rewrite Hx.
  unfold trimEnd. cbn [rev]. rewrite (trimStart_snoc _ _ Hx).
  rewrite rev_app_distr. reflexivity.
Qed.

(** Whether a candidate counts as starting with [+] is decided by the
    first code unit of the match, when that is a digit, a parenthesis or
    the [+] itself. *)
Lemma has_plus_head x t :
  isDigit x = true \/ x = ch "(" \/ x = plus ->
  startsWith (trim (replace_anchored true pat_prefix (x :: t))) [plus]
  = (plus =? x)%N.
Proof.
  intros Hx.
  assert (Hfacts : isSpace x = false /\
            (canonicalize true (ch "t") =? canonicalize true x)%N = false /\
            (canonicalize true (ch "p") =? canonicalize true x)%N = false).
  { destruct Hx as [Hx|[->| ->]]; [|repeat split; reflexivity ..].
    split; [apply digit_not_space, Hx|].
    split; apply digit_not_char; auto; right; vm_compute; reflexivity. }
  destruct Hfacts as (Hs & Ht & Hp).
  unfold replace_anchored. rewrite exec_prefix.
  cbn [js ci_prefix]. unfold ch in Ht, Hp. rewrite Ht, Hp. cbn [andb].
  rewrite (trim_head x t Hs). cbn [startsWith]. apply andb_true_r.
Qed.

(** X4: a text that starts, after characters that are neither digits nor
    [+] nor an opening parenthesis, with a number written as three, three
    and four digits, the first three possibly in parentheses and the
    groups possibly separated by [-], [.] or one white space, yields
    these ten digits, whatever follows. *)
Theorem extract_formatted_national
        (pre lp a rp s1 b s2 c rest : jsstring) :
  forallb inert pre = true ->
  optchar (ch "(") lp = true -> optchar (ch ")") rp = true ->
  digits a = true -> length a = 3 ->
  digits b = true -> length b = 3 ->
  digits c = true -> length c = 4 ->
  optsep s1 = true -> optsep s2 = true ->
  extractPhoneNumber (pre ++ national lp a rp s1 b s2 c ++ rest)
  = Some (a ++ b ++ c).
Proof.
  intros Hpre Hlp Hrp Ha La Hb Lb Hc Lc Hs1 Hs2.
  apply extract_first_standard; [exact Hpre| |].
  - apply exec_standard_national; assumption.
  - rewrite candidate_shape.
    rewrite (national_strip lp a rp s1 b s2 c) by assumption.
    destruct (national_head lp a rp s1 b s2 c Hlp Ha La)
      as (x & t & -> & Hx).
    rewrite has_plus_head by tauto.
    assert (Hnp : (plus =? x)%N = false).
    { destruct Hx as [Hx| ->]; [|reflexivity].
      rewrite N.eqb_sym. apply digit_not_plus, Hx. }
    rewrite Hnp. unfold shape. rewrite !length_app, La, Lb, Lc.
    reflexivity.
Qed.

Lemma extract_formatted_national_witness :
  extractPhoneNumber
    (js "Call " ++ national (js "(") (js "555") (js ")") (js " ")
                     (js "123") (js "-") (js "4567") ++ js " today")
  = Some (js "555" ++ js "123" ++ js "4567").
Proof.
  apply extract_formatted_national; reflexivity.
Defined.

(** X5: the same number behind [+] and a country code of one to three
    digits, the code ended by a separator or by the parenthesis, yields
    [+], the code and the ten digits. *)
Theorem extract_formatted_international
        (pre cc s0 lp a rp s1 b s2 c rest : jsstring) :
  forallb inert pre = true ->
  digits cc = true -> 1 <= length cc <= 3 ->
  optsep s0 = true -> s0 <> [] \/ lp <> [] ->
  optchar (ch "(") lp = true -> optchar (ch ")") rp = true ->
  digits a = true -> length a = 3 ->
  digits b = true -> length b = 3 ->
  digits c = true -> length c = 4 ->
  optsep s1 = true -> optsep s2 = true ->
  extractPhoneNumber
    (pre ++ (plus :: cc ++ s0 ++ national lp a rp s1 b s2 c) ++ rest)
  = Some (plus :: cc ++ a ++ b ++ c).
Proof.
  intros Hpre Hcc Lcc Hs0 Hend Hlp Hrp Ha La Hb Lb Hc Lc Hs1 Hs2.
  apply extract_first_standard; [exact Hpre| |].
  - cbn [app]. rewrite <- !app_assoc.
    apply exec_standard_international; assumption.
  - rewrite candidate_shape, has_plus_head by tauto.
    rewrite N.eqb_refl.
    assert (Hd : strip_non_digits
                   (plus :: cc ++ s0 ++ national lp a rp s1 b s2 c)
                 = cc ++ a ++ b ++ c).
    { rewrite strip_cons_other by reflexivity.
      rewrite !strip_app, (strip_digits cc Hcc),
        (optional_strip _ s0 Hs0 sep_not_digit),
        (national_strip lp a rp s1 b s2 c) by assumption.
      reflexivity. }
    rewrite Hd. unfold shape. rewrite !length_app, La, Lb, Lc.
    destruct (Nat.leb_spec 10 (length cc + (3 + (3 + 4)))); [|lia].
    destruct (Nat.leb_spec (length cc + (3 + (3 + 4))) 15); [|lia].
    reflexivity.
Qed.

Lemma extract_formatted_international_witness :
  extractPhoneNumber
    (js "tel:" ++ (plus :: js "1" ++ js "-"
                   ++ national [] (js "202") [] (js "-") (js "555")
                        (js "-") (js "0172")) ++ [])
  = Some (plus :: js "1" ++ js "202" ++ js "555" ++ js "0172").
Proof.
  apply extract_formatted_international;
    try reflexivity; try (simpl; lia).
  left. discriminate.
Defined.

(** ** Digit runs and fixed points *)

(** X6: a text of digits only, ten or more, yields its first ten digits;
    a text of exactly ten digits is returned as it is. *)
Theorem extract_digit_run_first_ten (d : jsstring) :
  digits d = true -> 10 <= length d ->
  extractPhoneNumber d = Some (firstn 10 d) /\
  (length d = 10 -> extractPhoneNumber d = Some d).
Proof.
  intros Hd Hl. split; [apply extract_digit_run; assumption|].
  intros H10. rewrite (extract_digit_run d Hd Hl), <- H10, firstn_all.
  reflexivity.
Qed.

Lemma extract_digit_run_first_ten_witness :
  extractPhoneNumber (js "20251102183000") = Some (firstn 10 (js "20251102183000")) /\
  (length (js "20251102183000") = 10 ->
   extractPhoneNumber (js "20251102183000") = Some (js "20251102183000")).
Proof.
  apply extract_digit_run_first_ten; [reflexivity | simpl; lia].
Defined.

(** X7: extraction returns its own result unchanged when the result has
    no [+] or has eleven to thirteen digits behind it. *)
Theorem extract_idempotent_on_short_results (text p : jsstring) :
  extractPhoneNumber text = Some p ->
  startsWith p [plus] = false \/ 11 <= digitCount p <= 13 ->
  extractPhoneNumber p = Some p.
Proof.
  intros E Hp. destruct (startsWith p [plus]) eqn:Hs.
  - destruct Hp as [Hp|Hp]; [discriminate|].
    destruct (startsWith_plus p Hs) as [d ->].
    apply extract_invariant in E. unfold PhoneCandidate in E.
    cbv zeta in E. unfold digitCount in Hp.
    change (drop_plus (plus :: d)) with d in E, Hp.
    apply andb_true_iff in E. destruct E as [E _].
    apply andb_true_iff in E. destruct E as [E _].
    apply extract_plus_11_13; assumption.
  - destruct (bare_result_ten_digits text p E Hs) as [Hd Hl].
    rewrite (extract_digit_run p Hd) by lia.
    rewrite <- Hl, firstn_all. reflexivity.
Qed.

Lemma extract_idempotent_on_short_results_witness :
  extractPhoneNumber (js "+12025550172") = Some (js "+12025550172").
Proof.
  apply (extract_idempotent_on_short_results (js "tel:+1-202-555-0172")).
  - vm_compute. reflexivity.
  - right. vm_compute. lia.
Defined.

(** ** The capture session *)

Lemma stopped_app a b : stopped (a ++ b) = stopped a ++ stopped b.
Proof. unfold stopped. apply flat_map_app. Qed.

Lemma decodes_app a b : decodes (a ++ b) = decodes a ++ decodes b.
Proof. unfold decodes. apply flat_map_app. Qed.

Lemma intervals_set_app a b :
  intervals_set (a ++ b) = intervals_set a ++ intervals_set b.
Proof. unfold intervals_set. apply flat_map_app. Qed.

Lemma acquisitions_app a b :
  acquisitions (a ++ b) = acquisitions a + acquisitions b.
Proof. unfold acquisitions. rewrite filter_app. apply length_app. Qed.

(** Two states with the same fields are the same. *)
Lemma world_ext w w' :
  phoneNumber w = phoneNumber w' -> scanned w = scanned w' ->
  error w = error w' -> isScanning w = isScanning w' ->
  permissionState w = permissionState w' ->
  isProcessingFile w = isProcessingFile w' ->
  lastScannedContent w = lastScannedContent w' ->
  smsMessage w = smsMessage w' -> isSendingSms w = isSendingSms w' ->
  smsAttempted w = smsAttempted w' ->
  scanIntervalRef w = scanIntervalRef w' -> streamRef w = streamRef w' ->
  videoSrcObject w = videoSrcObject w' -> timers w = timers w' ->
  trace w = trace w' -> w = w'.
Proof.
  destruct w, w'. cbn. intros. subst. reflexivity.
Qed.

(** Projections of an updated state, innermost update first. *)
Ltac fields :=
  cbv [phoneNumber scanned error isScanning permissionState
       isProcessingFile lastScannedContent smsMessage isSendingSms
       smsAttempted scanIntervalRef streamRef videoSrcObject timers trace
       log setPhoneNumber setScanned setError setIsScanning
       setPermissionState setIsProcessingFile setLastScannedContent
       setSmsMessage setIsSendingSms setSmsAttempted setScanIntervalRef
       setStreamRef setVideoSrcObject setTimers].

(** What [stopScanning] makes of each field. *)
Ltac stop_cases w mounted :=
  unfold stopScanning, stopStream, clearInterval; cbv zeta;
  destruct w as [ph sc er isc pm ipf lsc msg iss sat [id|] [st|] vso tm tr];
  cbn [scanIntervalRef streamRef];
  try destruct (id =? 0)%N; destruct mounted; reflexivity.

Lemma stopScanning_frame mounted w :
  phoneNumber (stopScanning mounted w) = phoneNumber w /\
  scanned (stopScanning mounted w) = scanned w /\
  error (stopScanning mounted w) = error w /\
  permissionState (stopScanning mounted w) = permissionState w /\
  isProcessingFile (stopScanning mounted w) = isProcessingFile w /\
  lastScannedContent (stopScanning mounted w) = lastScannedContent w /\
  smsMessage (stopScanning mounted w) = smsMessage w /\
  isSendingSms (stopScanning mounted w) = isSendingSms w /\
  smsAttempted (stopScanning mounted w) = smsAttempted w.
Proof. repeat split; stop_cases w mounted. Qed.

Lemma stopScanning_isScanning mounted w :
  isScanning (stopScanning mounted w) = false.
Proof. stop_cases w mounted. Qed.

Lemma stopScanning_streamRef mounted w :
  streamRef (stopScanning mounted w) = None.
Proof. stop_cases w mounted. Qed.

Lemma stopScanning_videoSrcObject mounted w :
  videoSrcObject (stopScanning mounted w)
  = if mounted then None else videoSrcObject w.
Proof. stop_cases w mounted. Qed.

Lemma stopScanning_scanIntervalRef mounted w :
  scanIntervalRef (stopScanning mounted w)
  = match scanIntervalRef w with
    | Some id => if (id =? 0)%N then Some id else None
    | None => None
    end.
Proof. stop_cases w mounted. Qed.

Lemma stopScanning_timers mounted w :
  timers (stopScanning mounted w)
  = match scanIntervalRef w with
    | Some id =>
      if (id =? 0)%N then timers w
      else filter (fun t => negb (t =? id)%N) (timers w)
    | None => timers w
    end.
Proof. stop_cases w mounted. Qed.

Lemma stopScanning_trace mounted w :
  trace (stopScanning mounted w)
  = trace w
    ++ match scanIntervalRef w with
       | Some id => if (id =? 0)%N then [] else [ClearInterval id]
       | None => []
       end
    ++ match streamRef w with
       | Some st => [StopTracks st]
       | None => []
       end.
Proof.
  unfold stopScanning, stopStream, clearInterval; cbv zeta;
  destruct w as [ph sc er isc pm ipf lsc msg iss sat [id|] [st|] vso tm tr];
  cbn [scanIntervalRef streamRef];
  try destruct (id =? 0)%N; destruct mounted; fields;
  rewrite <- ?app_assoc, ?app_nil_r; reflexivity.
Qed.

(** X8: [stopScanning] leaves no stream held and no scan marked as
    running, clears the timer of the ref, stops the tracks of a held
    stream once, and a second call changes nothing: it neither clears nor
    stops anything again. *)
Theorem stopScanning_releases_once (mounted : bool) (w : World) :
  let w' := stopScanning mounted w in
  streamRef w' = None /\ isScanning w' = false /\
  (forall id, scanIntervalRef w = Some id -> id <> 0%N ->
              scanIntervalRef w' = None /\ ~ In id (timers w')) /\
  stopped (trace w') =
    stopped (trace w) ++
    match streamRef w with Some st => [st] | None => [] end /\
  stopScanning mounted w' = w'.
Proof.
  cbv zeta.
  split; [apply stopScanning_streamRef|].
  split; [apply stopScanning_isScanning|].
  split; [|split].
  - intros id Hid Hz. apply N.eqb_neq in Hz.
    rewrite stopScanning_scanIntervalRef, stopScanning_timers, Hid, Hz.
    split; [reflexivity | apply not_In_cleared].
  - rewrite stopScanning_trace, !stopped_app.
    destruct (scanIntervalRef w) as [id|]; [destruct (id =? 0)%N|];
      destruct (streamRef w); reflexivity.
  - destruct (stopScanning_frame mounted (stopScanning mounted w))
      as (H1 & H2 & H3 & H4 & H5 & H6 & H7 & H8 & H9).
    apply world_ext;
      [exact H1 | exact H2 | exact H3 | | exact H4 | exact H5 | exact H6
       | exact H7 | exact H8 | exact H9 | | | | | ].
    + rewrite !stopScanning_isScanning. reflexivity.
    + rewrite !stopScanning_scanIntervalRef.
      destruct (scanIntervalRef w) as [id|]; [|reflexivity].
      destruct (id =? 0)%N eqn:E; [rewrite E|]; reflexivity.
    + rewrite !stopScanning_streamRef. reflexivity.
    + rewrite !stopScanning_videoSrcObject. destruct mounted; reflexivity.
    + rewrite stopScanning_timers, !stopScanning_scanIntervalRef.
      destruct (scanIntervalRef w) as [id|]; [|reflexivity].
      destruct (id =? 0)%N eqn:E; [rewrite E|]; reflexivity.
    + rewrite stopScanning_trace, stopScanning_scanIntervalRef,
        stopScanning_streamRef.
      destruct (scanIntervalRef w) as [id|]; [|apply app_nil_r].
      destruct (id =? 0)%N eqn:E; [rewrite E|]; apply app_nil_r.
Qed.

(** A start that succeeds: the stream [st] is acquired, the video element
    is mounted and plays. *)
Lemma startScanning_success env st w :
  media env = inl st -> startVideoMounted env = true -> play env = None ->
  startScanning env w =
  setScanIntervalRef (Some (timerId env))
    (setTimers (timerId env :: timers w)
       (log (SetInterval (timerId env) 200)
          (setVideoSrcObject (Some st)
             (setStreamRef (Some st)
                (log GetUserMedia (setIsScanning true (setError [] w))))))).
Proof.
  intros Hm Hv Hp. unfold startScanning. cbv zeta.
  rewrite Hm, Hv, Hp. reflexivity.
Qed.

(** X9: a scan that is started and stopped at once sets the timer and
    clears it, acquires the stream and stops its tracks once; afterwards
    nothing is held and no tick of that timer decodes or changes the
    state. *)
Theorem start_then_stop (env : StartEnv) (st : MediaStream) (w : World) :
  media env = inl st -> startVideoMounted env = true -> play env = None ->
  timerId env <> 0%N ->
  let w' := stopScanning true (startScanning env w) in
  trace w' =
    trace w ++ [SetError []; GetUserMedia; SetInterval (timerId env) 200;
                ClearInterval (timerId env); StopTracks st] /\
  scanIntervalRef w' = None /\ streamRef w' = None /\
  videoSrcObject w' = None /\ isScanning w' = false /\
  forall ts, run (timerId env) ts w' = w'.
Proof.
  intros Hm Hv Hp Hz. cbv zeta.
  rewrite (startScanning_success env st w Hm Hv Hp).
  apply N.eqb_neq in Hz.
  assert (Hiv : scanIntervalRef (stopScanning true
            (setScanIntervalRef (Some (timerId env))
               (setTimers (timerId env :: timers w)
                  (log (SetInterval (timerId env) 200)
                     (setVideoSrcObject (Some st)
                        (setStreamRef (Some st)
                           (log GetUserMedia
                              (setIsScanning true (setError [] w))))))))) = None).
  { rewrite stopScanning_scanIntervalRef. fields. rewrite Hz. reflexivity. }
  split; [|split; [exact Hiv|split; [apply stopScanning_streamRef|split;
           [apply stopScanning_videoSrcObject|split;
            [apply stopScanning_isScanning|]]]]].
  - rewrite stopScanning_trace. fields. rewrite Hz.
    rewrite <- !app_assoc. reflexivity.
  - intros ts. apply run_cleared. rewrite stopScanning_timers. fields.
    rewrite Hz. apply not_In_cleared.
Qed.

Lemma start_then_stop_witness :
  trace (stopScanning true started) =
    trace initial ++ [SetError []; GetUserMedia; SetInterval 1 200;
                      ClearInterval 1; StopTracks 7]%N.
Proof.
  exact (proj1 (start_then_stop
                  {| media := inl 7%N; startVideoMounted := true;
                     play := None; timerId := 1%N |}
                  7%N initial eq_refl eq_refl eq_refl
                  (fun H : 1%N = 0%N => N.neq_succ_0 0 H))).
Defined.

(** X10: [startScanning] sets the poll timer only when the camera is
    acquired, the video element is mounted and it plays.  When the
    acquisition fails, nothing is held and the failure is reported; when
    the video does not play, the failure is reported and the stream stays
    in the ref; when the video element is not mounted, the stream stays in
    the ref, the scan stays marked as running and no error is set. *)
Theorem startScanning_without_timer (env : StartEnv) (w : World) :
  let w' := startScanning env w in
  (forall e, media env = inr e ->
     timers w' = timers w /\ scanIntervalRef w' = scanIntervalRef w /\
     streamRef w' = streamRef w /\ isScanning w' = false /\
     error w' = js "Failed to start camera: " ++ errMessage e) /\
  (forall st e, media env = inl st -> startVideoMounted env = true ->
     play env = Some e ->
     timers w' = timers w /\ scanIntervalRef w' = scanIntervalRef w /\
     streamRef w' = Some st /\ isScanning w' = false /\
     error w' = js "Failed to start camera: " ++ errMessage e) /\
  (forall st, media env = inl st -> startVideoMounted env = false ->
     timers w' = timers w /\ scanIntervalRef w' = scanIntervalRef w /\
     streamRef w' = Some st /\ isScanning w' = true /\ error w' = []) /\
  (intervals_set (trace w') <> intervals_set (trace w) ->
   exists st, media env = inl st /\ startVideoMounted env = true /\
              play env = None).
Proof.
  cbv zeta. split; [|split; [|split]].
  - intros e Hm. unfold startScanning. cbv zeta. rewrite Hm. fields.
    repeat split; reflexivity.
  - intros st e Hm Hv Hp. unfold startScanning. cbv zeta.
    rewrite Hm, Hv, Hp. fields. repeat split; reflexivity.
  - intros st Hm Hv. unfold startScanning. cbv zeta.
    rewrite Hm, Hv. fields. repeat split; reflexivity.
  - unfold startScanning. cbv zeta.
    destruct (media env) as [st|e]; [destruct (startVideoMounted env);
      [destruct (play env) as [e|]|]|]; fields; intros H;
      try (exists st; auto);
      exfalso; apply H; rewrite ?intervals_set_app;
      cbn [intervals_set flat_map app]; rewrite ?app_nil_r; reflexivity.
Qed.

(** ** The camera permission and the camera button *)

(** A granted request: the stream of the probe is stopped at once. *)
Lemma requestCameraPermission_granted st w :
  requestCameraPermission (inl st) w =
  (setPermissionState granted
     (setStreamRef None
        (log (StopTracks st)
           (setStreamRef (Some st) (log GetUserMedia (setError [] w))))),
   true).
Proof. reflexivity. Qed.

Lemma requestCameraPermission_refused e w :
  snd (requestCameraPermission (inr e) w) = false /\
  trace (fst (requestCameraPermission (inr e) w))
  = trace w ++ [SetError []; GetUserMedia;
                SetError (error (fst (requestCameraPermission (inr e) w)))] /\
  scanIntervalRef (fst (requestCameraPermission (inr e) w))
  = scanIntervalRef w /\
  streamRef (fst (requestCameraPermission (inr e) w)) = streamRef w /\
  timers (fst (requestCameraPermission (inr e) w)) = timers w /\
  isScanning (fst (requestCameraPermission (inr e) w)) = isScanning w.
Proof.
  unfold requestCameraPermission. cbv zeta.
  destruct (jseqb (errName e) (js "NotAllowedError"));
    [|destruct (jseqb (errName e) (js "NotFoundError"))];
    cbn [fst snd]; fields; rewrite <- !app_assoc;
    repeat split; reflexivity.
Qed.

(** X11: the camera button.  With the permission granted it starts the
    scan at once.  Otherwise it asks first: a granted request stops the
    stream of the probe, leaves no stream in the ref and then starts the
    scan, so that the camera is acquired twice; a refused request starts
    nothing: the camera is acquired once, no timer is set, and the session
    refs are what they were. *)
Theorem cameraButtonClick_flow
        (probe : MediaStream + DOMException) (env : StartEnv) (w : World) :
  let w' := cameraButtonClick probe env w in
  (permissionState w = granted -> w' = startScanning env w) /\
  (forall st, permissionState w <> granted -> probe = inl st ->
     w' = startScanning env (fst (requestCameraPermission (inl st) w)) /\
     streamRef (fst (requestCameraPermission (inl st) w)) = None /\
     permissionState (fst (requestCameraPermission (inl st) w)) = granted /\
     exists rest,
       trace w' = trace w ++ [SetError []; GetUserMedia; StopTracks st;
                              SetError []; GetUserMedia] ++ rest) /\
  (forall e, permissionState w <> granted -> probe = inr e ->
     w' = fst (requestCameraPermission (inr e) w) /\
     acquisitions (trace w') = acquisitions (trace w) + 1 /\
     intervals_set (trace w') = intervals_set (trace w) /\
     scanIntervalRef w' = scanIntervalRef w /\ streamRef w' = streamRef w /\
     timers w' = timers w /\ isScanning w' = isScanning w).
Proof.
  cbv zeta. unfold cameraButtonClick. split; [|split].
  - intros ->. reflexivity.
  - intros st Hp ->. rewrite requestCameraPermission_granted.
    cbn [fst]. split; [destruct (permissionState w); congruence|].
    split; [reflexivity|]. split; [reflexivity|].
    assert (Hw : (match permissionState w with
                  | granted => startScanning env w
                  | _ => startScanning env
                           (setPermissionState granted
                              (setStreamRef None
                                 (log (StopTracks st)
                                    (setStreamRef (Some st)
                                       (log GetUserMedia (setError [] w))))))
                  end)
                 = startScanning env
                     (setPermissionState granted
                        (setStreamRef None
                           (log (StopTracks st)
                              (setStreamRef (Some st)
                                 (log GetUserMedia (setError [] w))))))).
    { destruct (permissionState w); congruence. }
    rewrite Hw. unfold startScanning. cbv zeta.
    destruct (media env) as [s|e];
      [destruct (startVideoMounted env); [destruct (play env)|]|];
      fields; rewrite <- !app_assoc; cbn [app]; eexists; reflexivity.
  - intros e Hp ->.
    destruct (requestCameraPermission_refused e w)
      as (Hr & Ht & Hi & Hs & Htm & Hsc).
    assert (Hw : (match permissionState w with
                  | granted => startScanning env w
                  | _ => let (w0, isGranted) :=
                           requestCameraPermission (inr e) w in
                         if isGranted then startScanning env w0 else w0
                  end) = fst (requestCameraPermission (inr e) w)).
    { destruct (requestCameraPermission (inr e) w) as [w0 g].
      cbn [fst snd] in *. subst g.
      destruct (permissionState w); congruence. }
    rewrite Hw. split; [reflexivity|].
    rewrite Ht, acquisitions_app, intervals_set_app.
    cbn [intervals_set flat_map acquisitions filter length app].
    rewrite app_nil_r. repeat split; assumption.
Qed.

(** ** The phone number and the [scanned] flag *)

Lemma phone_step_refl w : phone_step w w.
Proof. left. auto. Qed.

Lemma scanVideoFrame_step t w : phone_step w (scanVideoFrame t w).
Proof.
  unfold scanVideoFrame. cbv zeta.
  destruct (ready t); cbn [negb]; [|left; split; reflexivity].
  destruct (decoded t) as [data|]; [|left; split; reflexivity].
  destruct (truthy data); [|left; split; reflexivity].
  destruct (extractPhoneNumber data) as [p|] eqn:E; [|left; split; reflexivity].
  destruct (truthy p); [|left; split; reflexivity].
  right. left.
  destruct (stopScanning_frame true
              (setScanned true
                 (setPhoneNumber p
                    (setLastScannedContent data (log (Decode dontInvert) w)))))
    as (Hp & Hs & _).
  rewrite Hp, Hs. split; [reflexivity|]. exists data. exact E.
Qed.

Lemma processFileUpload_step img f w :
  phone_step w (processFileUpload img f w).
Proof.
  unfold processFileUpload. cbv zeta.
  destruct img as [| | |[data|]|[|]]; try (left; split; reflexivity).
  destruct (truthy data); [|left; split; reflexivity].
  destruct (extractPhoneNumber data) as [p|] eqn:E; [|left; split; reflexivity].
  destruct (truthy p); [|left; split; reflexivity].
  right. left. split; [reflexivity|]. exists data. exact E.
Qed.

Lemma handleManualInput_step input w :
  phone_step w (handleManualInput input w).
Proof.
  unfold handleManualInput.
  destruct (extractPhoneNumber input) as [p|] eqn:E; [|left; split; reflexivity].
  destruct (truthy p); [|left; split; reflexivity].
  right. left. split; [reflexivity|]. exists input. exact E.
Qed.

Lemma sendSms_scanned env w :
  phoneNumber (sendSms env w) = phoneNumber w /\
  scanned (sendSms env w) = scanned w /\
  smsMessage (sendSms env w) = smsMessage w /\
  isSendingSms (sendSms env w) = false.
Proof.
  unfold sendSms. cbv zeta.
  destruct (negb (truthy (phoneNumber w)) || (length (phoneNumber w) <? 10));
    [repeat split; reflexivity|].
  destruct (negb (truthy (trim (smsMessage w)))); [repeat split; reflexivity|].
  destruct (encodeURIComponent (smsMessage w)); [|repeat split; reflexivity].
  destruct (isMobileDevice env), (hrefThrows env); repeat split; reflexivity.
Qed.

Lemma handler_step w w' :
  (w' = w \/
   (exists p, w' = setPermissionState p w) \/
   (exists m, w' = fst (requestCameraPermission m w)) \/
   (exists env, w' = startScanning env w) \/
   (exists mounted, w' = stopScanning mounted w) \/
   (exists t, w' = scanVideoFrame t w) \/
   (exists img f, w' = handleFileSelect img f w) \/
   (exists input, w' = handleManualInput input w) \/
   (exists s, w' = setSmsMessage s w) \/
   (exists env, w' = sendSms env w) \/
   (exists mounted, w' = resetScanner mounted w)) ->
  phone_step w w'.
Proof.
  intros [->|[[p ->]|[[m ->]|[[env ->]|[[mounted ->]|[[t ->]|[[img [f ->]]
          |[[input ->]|[[s ->]|[[env ->]|[mounted ->]]]]]]]]]]].
  - apply phone_step_refl.
  - left. split; reflexivity.
  - left. unfold requestCameraPermission, stopStream. cbv zeta.
    destruct m as [st|e]; [split; reflexivity|].
    destruct (jseqb (errName e) (js "NotAllowedError"));
      [|destruct (jseqb (errName e) (js "NotFoundError"))];
      split; reflexivity.
  - left. unfold startScanning. cbv zeta.
    destruct (media env); [destruct (startVideoMounted env);
      [destruct (play env)|]|]; split; reflexivity.
  - left. destruct (stopScanning_frame mounted w) as (Hp & Hs & _). auto.
  - apply scanVideoFrame_step.
  - unfold handleFileSelect. destruct f as [f|]; [|apply phone_step_refl].
    destruct (startsWith (fileType f) (js "image/"));
      [apply processFileUpload_step | left; split; reflexivity].
  - apply handleManualInput_step.
  - left. split; reflexivity.
  - left. destruct (sendSms_scanned env w) as (Hp & Hs & _). auto.
  - right. right. unfold resetScanner. cbv zeta.
    destruct (stopScanning_frame mounted
                (setSmsAttempted false
                   (setSmsMessage []
                      (setLastScannedContent []
                         (setError []
                            (setScanned false (setPhoneNumber [] w)))))))
      as (Hp & Hs & _).
    rewrite Hp, Hs. split; reflexivity.
Qed.

(** X12: in every state the component can reach, the [scanned] flag is set
    exactly when a phone number is stored, and a stored phone number is a
    phone candidate: digits behind at most one [+], ten to fifteen of
    them. *)
Theorem reachable_phone_invariant (w : World) :
  reachable w ->
  scanned w = truthy (phoneNumber w) /\
  (phoneNumber w = [] \/ PhoneCandidate (phoneNumber w) = true).
Proof.
  assert (Hstep : forall w w', phone_step w w' ->
            scanned w = truthy (phoneNumber w) /\
            (phoneNumber w = [] \/ PhoneCandidate (phoneNumber w) = true) ->
            scanned w' = truthy (phoneNumber w') /\
            (phoneNumber w' = [] \/ PhoneCandidate (phoneNumber w') = true)).
  { intros w0 w' [[Hp Hs]|[[Hs [text E]]|[Hp Hs]]] [Hi Hc].
    - rewrite Hp, Hs. auto.
    - rewrite Hs, (extract_truthy _ _ E).
      split; [reflexivity | right; eapply extract_invariant, E].
    - rewrite Hp, Hs. auto. }
  induction 1; [split; [reflexivity | left; reflexivity] | ..];
    (eapply Hstep; [apply handler_step | eassumption]); eauto 15.
Qed.

Lemma reachable_phone_invariant_witness :
  scanned (composed (js "hi")) = truthy (phoneNumber (composed (js "hi"))) /\
  (phoneNumber (composed (js "hi")) = [] \/
   PhoneCandidate (phoneNumber (composed (js "hi"))) = true).
Proof.
  apply reachable_phone_invariant.
  unfold composed. apply reach_message, reach_manual, reach_initial.
Defined.

(** ** The hand-off, again *)

(** X13: [sendSms] never leaves the sending flag set and changes neither
    the phone number nor the message; it requests at most one navigation;
    [smsAttempted] is set afterwards only when the navigation was
    requested and the assignment did not throw, and is cleared whenever no
    navigation was requested, whatever it was before. *)
Theorem sendSms_outcome (env : SmsEnv) (w : World) :
  let w' := sendSms env w in
  isSendingSms w' = false /\
  phoneNumber w' = phoneNumber w /\ smsMessage w' = smsMessage w /\
  (navigations (trace w') = navigations (trace w) \/
   exists u, navigations (trace w') = navigations (trace w) ++ [u]) /\
  (smsAttempted w' = true ->
   hrefThrows env = false /\
   exists u, navigations (trace w') = navigations (trace w) ++ [u]) /\
  (navigations (trace w') = navigations (trace w) ->
   smsAttempted w' = false).
Proof.
  cbv zeta. destruct (sendSms_scanned env w) as (Hp & _ & Hm & Hs).
  split; [exact Hs|]. split; [exact Hp|]. split; [exact Hm|].
  unfold sendSms. cbv zeta.
  destruct (negb (truthy (phoneNumber w)) || (length (phoneNumber w) <? 10));
    [|destruct (negb (truthy (trim (smsMessage w))));
      [|destruct (encodeURIComponent (smsMessage w)) as [body|];
        [destruct (isMobileDevice env), (hrefThrows env)|]]];
    fields; rewrite ?navigations_app; cbn [navigations flat_map app];
    rewrite ?app_nil_r.
  all: split;
    [first [left; reflexivity | right; eexists; reflexivity]
    |split;
     [first [discriminate
            |intros _; split; [reflexivity | eexists; reflexivity]]
     |first [intros _; reflexivity
            |intros H; exfalso;
             apply (f_equal (@length jsstring)) in H;
             rewrite length_app in H; simpl in H; lia]]].
Qed.

Lemma hexDigit_safe n : (n < 16)%N -> uriSafe (hexDigit n) = true.
Proof.
  intros H. rewrite <- (N2Nat.id n).
  assert (Hk : N.to_nat n < 16) by lia.
  generalize dependent (N.to_nat n). intros k Hk.
  do 16 (destruct k as [|k]; [reflexivity|]). lia.
Qed.

Lemma escapeOctet_safe b :
  (b < 256)%N -> forallb uriSafe (escapeOctet b) = true.
Proof.
  intros H. unfold escapeOctet. cbn [forallb].
  rewrite (hexDigit_safe (b / 16)), (hexDigit_safe (b mod 16)).
  - reflexivity.
  - apply N.mod_lt. discriminate.
  - apply N.Div0.div_lt_upper_bound. exact H.
Qed.

Lemma utf8_octets cp :
  (cp < 1114112)%N -> Forall (fun b => (b < 256)%N) (utf8 cp).
Proof.
  intros H. unfold utf8.
  assert (H64 : forall x, (x mod 64 < 64)%N)
    by (intros x; apply N.mod_lt; discriminate).
  destruct (N.ltb_spec cp 128); [repeat constructor; lia|].
  destruct (N.ltb_spec cp 2048).
  { assert (cp / 64 < 32)%N by (apply N.Div0.div_lt_upper_bound; lia).
    pose proof (H64 cp). repeat constructor; lia. }
  destruct (N.ltb_spec cp 65536).
  { assert (cp / 4096 < 16)%N by (apply N.Div0.div_lt_upper_bound; lia).
    pose proof (H64 cp). pose proof (H64 (cp / 64)%N).
    repeat constructor; lia. }
  assert (cp / 262144 < 16)%N by (apply N.Div0.div_lt_upper_bound; lia).
  pose proof (H64 cp). pose proof (H64 (cp / 64)%N).
  pose proof (H64 (cp / 4096)%N). repeat constructor; lia.
Qed.

Lemma escapeCodePoint_safe cp :
  (cp < 1114112)%N -> forallb uriSafe (escapeCodePoint cp) = true.
Proof.
  intros H. unfold escapeCodePoint.
  induction (utf8_octets cp H) as [|b l Hb _ IH]; [reflexivity|].
  cbn [map concat]. rewrite forallb_app, (escapeOctet_safe b Hb), IH.
  reflexivity.
Qed.

(** What [encodeURIComponent] returns holds unreserved characters and
    escapes only. *)
Lemma encodeURIComponent_safe n :
  forall s body,
    length s <= n -> codeUnits s = true ->
    encodeURIComponent s = Some body -> forallb uriSafe body = true.
Proof.
  induction n as [|n IH]; intros s body Hl Hs E.
  - destruct s; [|simpl in Hl; lia]. injection E as <-. reflexivity.
  - destruct s as [|c s]; [injection E as <-; reflexivity|].
    cbn [length] in Hl. unfold codeUnits in Hs. cbn [forallb] in Hs.
    apply andb_true_iff in Hs. destruct Hs as [Hc Hs].
    apply N.ltb_lt in Hc. cbn [encodeURIComponent] in E.
    destruct (uriUnreserved c) eqn:Hu.
    + destruct (encodeURIComponent s) as [b|] eqn:Eb; [|discriminate].
      injection E as <-. cbn [forallb]. unfold uriSafe at 1. rewrite Hu.
      apply (IH s b); [lia | exact Hs | exact Eb].
    + destruct (isLeadSurrogate c) eqn:Hlead.
      * destruct s as [|c2 s]; [discriminate|].
        destruct (isTrailSurrogate c2) eqn:Htrail; [|discriminate].
        destruct (encodeURIComponent s) as [b|] eqn:Eb; [|discriminate].
        injection E as <-. cbn [forallb] in Hs.
        apply andb_true_iff in Hs. destruct Hs as [_ Hs].
        cbn [length] in Hl. rewrite forallb_app.
        rewrite (IH s b); [|lia|exact Hs|exact Eb].
        rewrite escapeCodePoint_safe; [reflexivity|].
        unfold isLeadSurrogate, isTrailSurrogate in *.
        apply andb_true_iff in Hlead, Htrail.
        rewrite !N.leb_le in Hlead, Htrail. lia.
      * destruct (isTrailSurrogate c); [discriminate|].
        destruct (encodeURIComponent s) as [b|] eqn:Eb; [|discriminate].
        injection E as <-. rewrite forallb_app.
        rewrite (IH s b); [|lia|exact Hs|exact Eb].
        rewrite escapeCodePoint_safe; [reflexivity | lia].
Qed.

Lemma hexDigit_hex n : (n < 16)%N -> isHexDigit (hexDigit n) = true.
Proof.
  intros H. rewrite <- (N2Nat.id n).
  assert (Hk : N.to_nat n < 16) by lia.
  generalize dependent (N.to_nat n). intros k Hk.
  do 16 (destruct k as [|k]; [reflexivity|]). lia.
Qed.

Lemma uriEscaped_octet b s :
  (b < 256)%N -> uriEscaped (escapeOctet b ++ s) = uriEscaped s.
Proof.
  intros H. unfold escapeOctet. cbn [app uriEscaped].
  rewrite N.eqb_refl, (hexDigit_hex (b / 16)), (hexDigit_hex (b mod 16)).
  - reflexivity.
  - apply N.mod_lt. discriminate.
  - apply N.Div0.div_lt_upper_bound. exact H.
Qed.

Lemma uriEscaped_unreserved c s :
  uriUnreserved c = true -> uriEscaped (c :: s) = uriEscaped s.
Proof.
  intros H. cbn [uriEscaped].
  destruct (N.eqb_spec c (ch "%")) as [->|_]; [discriminate H|].
  rewrite H. reflexivity.
Qed.

Lemma uriEscaped_codepoint cp s :
  (cp < 1114112)%N -> uriEscaped (escapeCodePoint cp ++ s) = uriEscaped s.
Proof.
  intros H. unfold escapeCodePoint.
  induction (utf8_octets cp H) as [|b l Hb _ IH]; [reflexivity|].
  cbn [map concat]. rewrite <- app_assoc, (uriEscaped_octet b _ Hb).
  exact IH.
Qed.

(** What [encodeURIComponent] returns is made of unreserved characters
    and whole escapes. *)
Lemma encodeURIComponent_escaped n :
  forall s body,
    length s <= n -> codeUnits s = true ->
    encodeURIComponent s = Some body -> uriEscaped body = true.
Proof.
  induction n as [|n IH]; intros s body Hl Hs E.
  - destruct s; [|simpl in Hl; lia]. injection E as <-. reflexivity.
  - destruct s as [|c s]; [injection E as <-; reflexivity|].
    cbn [length] in Hl. unfold codeUnits in Hs. cbn [forallb] in Hs.
    apply andb_true_iff in Hs. destruct Hs as [Hc Hs].
    apply N.ltb_lt in Hc. cbn [encodeURIComponent] in E.
    destruct (uriUnreserved c) eqn:Hu.
    + destruct (encodeURIComponent s) as [b|] eqn:Eb; [|discriminate].
      injection E as <-. rewrite (uriEscaped_unreserved c b Hu).
      apply (IH s b); [lia | exact Hs | exact Eb].
    + destruct (isLeadSurrogate c) eqn:Hlead.
      * destruct s as [|c2 s]; [discriminate|].
        destruct (isTrailSurrogate c2) eqn:Htrail; [|discriminate].
        destruct (encodeURIComponent s) as [b|] eqn:Eb; [|discriminate].
        injection E as <-. cbn [forallb] in Hs.
        apply andb_true_iff in Hs. destruct Hs as [_ Hs].
        cbn [length] in Hl. rewrite uriEscaped_codepoint.
        -- apply (IH s b); [lia | exact Hs | exact Eb].
        -- unfold isLeadSurrogate, isTrailSurrogate in *.
           apply andb_true_iff in Hlead, Htrail.
           rewrite !N.leb_le in Hlead, Htrail. lia.
      * destruct (isTrailSurrogate c); [discriminate|].
        destruct (encodeURIComponent s) as [b|] eqn:Eb; [|discriminate].
        injection E as <-. rewrite uriEscaped_codepoint by lia.
        apply (IH s b); [lia | exact Hs | exact Eb].
Qed.

Example escapes_are_whole :
  uriEscaped (js "a%26b%3Dc%20d") = true /\ uriEscaped (js "%zz%") = false.
Proof. vm_compute. auto. Qed.

(** X14: from a reachable state whose message is a string of UTF-16 code
    units, every navigation [sendSms] requests goes to sms:, a phone
    candidate, ?body= and a body made of unreserved characters and of
    escapes, each a [%] and two hexadecimal digits: no character of the
    message can end the body or add a parameter. *)
Theorem sendSms_uri_shape (env : SmsEnv) (w : World) :
  reachable w -> codeUnits (smsMessage w) = true ->
  forall u,
    navigations (trace (sendSms env w)) = navigations (trace w) ++ [u] ->
    exists body,
      u = js "sms:" ++ phoneNumber w ++ js "?body=" ++ body /\
      PhoneCandidate (phoneNumber w) = true /\
      forallb uriSafe body = true /\
      uriEscaped body = true.
Proof.
  intros Hr Hcu u.
  pose proof (reachable_phone_state w Hr) as Hps.
  destruct (phone_state_length _ Hps) as [_ Hlen].
  unfold sendSms. cbv zeta.
  destruct (phoneNumber w) as [|c p] eqn:Hph.
  - cbn [truthy negb orb]. fields. rewrite !navigations_app.
    cbn [navigations flat_map app]. rewrite !app_nil_r. intros H.
    apply (f_equal (@length jsstring)) in H. rewrite length_app in H.
    simpl in H. lia.
  - cbn [truthy negb orb].
    destruct (Nat.ltb_spec (length (c :: p)) 10) as [Hlt|_].
    { specialize (Hlen ltac:(discriminate)). lia. }
    assert (Hpc : PhoneCandidate (c :: p) = true).
    { destruct Hps as [Hps|[text E]]; [discriminate|].
      eapply extract_invariant, E. }
    destruct (negb (truthy (trim (smsMessage w)))).
    { fields. rewrite !navigations_app. cbn [navigations flat_map app].
      rewrite !app_nil_r. intros H.
      apply (f_equal (@length jsstring)) in H. rewrite length_app in H.
      simpl in H. lia. }
    destruct (encodeURIComponent (smsMessage w)) as [body|] eqn:E.
    + assert (Hsafe : forallb uriSafe body = true).
      { eapply encodeURIComponent_safe; [apply Nat.le_refl | exact Hcu
                                        | exact E]. }
      assert (Hesc : uriEscaped body = true).
      { eapply encodeURIComponent_escaped; [apply Nat.le_refl | exact Hcu
                                           | exact E]. }
      destruct (isMobileDevice env), (hrefThrows env); fields;
        rewrite !navigations_app; cbn [navigations flat_map app];
        rewrite ?app_nil_r; intros H; apply app_inv_head in H;
        injection H as <-; exists body; auto.
    + fields. rewrite !navigations_app. cbn [navigations flat_map app].
      rewrite !app_nil_r. intros H.
      apply (f_equal (@length jsstring)) in H. rewrite length_app in H.
      simpl in H. lia.
Qed.

Lemma sendSms_uri_shape_witness :
  exists body,
    js "sms:5551234567?body=a%26b%3Dc%20d"
    = js "sms:" ++ phoneNumber (composed (js "a&b=c d")) ++ js "?body=" ++ body /\
    PhoneCandidate (phoneNumber (composed (js "a&b=c d"))) = true /\
    forallb uriSafe body = true /\
    uriEscaped body = true.
Proof.
  apply (sendSms_uri_shape v8 (composed (js "a&b=c d"))).
  - unfold composed. apply reach_message, reach_manual, reach_initial.
  - reflexivity.
  - vm_compute. reflexivity.
Defined.

(** ** Uploaded images and typed numbers *)

(** X15: processing an uploaded image leaves the capture session, the
    permission and the message form as they were.  It ends with the
    processing flag cleared, except when [img.onload] throws: then the flag
    stays set, the error stays empty and neither the number nor the
    [scanned] flag changes.  The decoder is called once, with both
    inversions, when the image loads and the canvas can be read, and not
    at all otherwise. *)
Theorem processFileUpload_frame (img : ImageLoad) (f : File) (w : World) :
  let w' := processFileUpload img f w in
  same_session w w' /\
  isProcessingFile w' =
    match img with OnloadThrows _ => true | _ => false end /\
  decodes (trace w') =
    decodes (trace w) ++
    match img with
    | Loaded _ | OnloadThrows true => [attemptBoth]
    | _ => []
    end /\
  (forall inDecoder, img = OnloadThrows inDecoder ->
     error w' = [] /\ phoneNumber w' = phoneNumber w /\
     scanned w' = scanned w).
Proof.
  cbv zeta. unfold processFileUpload, same_session. cbv zeta.
  destruct img as [| | |[data|]|[|]];
    [ | | |destruct (truthy data);
           [destruct (extractPhoneNumber data) as [p|];
            [destruct (truthy p)|]|]| | |];
    fields; rewrite !decodes_app; cbn [decodes flat_map app];
    rewrite ?app_nil_r;
    (split; [repeat split; reflexivity|]);
    (split; [reflexivity|]); (split; [reflexivity|]);
    intros d Hd; try discriminate Hd; repeat split; reflexivity.
Qed.

(** X16: a typed text with ten to fifteen digits in all is always
    accepted: a phone candidate made of digits of the text is stored, the
    flag is set and the error cleared.  A typed text with fewer than ten
    digits is always refused: only the error message is set. *)
Theorem handleManualInput_gate (input : jsstring) (w : World) :
  let w' := handleManualInput input w in
  (10 <= ndigits input <= 15 ->
   scanned w' = true /\ error w' = [] /\
   PhoneCandidate (phoneNumber w') = true /\
   infix (drop_plus (phoneNumber w')) (strip_non_digits input)) /\
  (ndigits input < 10 ->
   w' = setError (js "Please enter a valid phone number (10-15 digits with optional country code).") w).
Proof.
  cbv zeta. unfold handleManualInput. split.
  - intros H. destruct (extract_some_of_digit_count input H) as [p E].
    rewrite E, (extract_truthy _ _ E). fields.
    split; [reflexivity|]. split; [reflexivity|].
    split; [eapply extract_invariant, E|].
    destruct (extract_source input p E) as (m & pf & Hin & Hs).
    apply shape_some in Hs. destruct Hs as [_ Hp].
    assert (Hd : drop_plus p = strip_non_digits m).
    { destruct Hp as [->|[-> _]]; [reflexivity|].
      apply drop_plus_digits, digits_strip. }
    rewrite Hd. apply infix_strip, Hin.
  - intros H. rewrite (extract_few_digits input H). reflexivity.
Qed.

Lemma handleManualInput_gate_witness :
  scanned (handleManualInput (js "my number: 555 12 34 567") initial) = true /\
  handleManualInput (js "555-1234") initial
  = setError (js "Please enter a valid phone number (10-15 digits with optional country code).") initial.
Proof.
  split.
  - apply (proj1 (handleManualInput_gate
                    (js "my number: 555 12 34 567") initial)).
    vm_compute. split; lia.
  - apply (proj2 (handleManualInput_gate (js "555-1234") initial)).
    vm_compute. lia.
Defined.

(** X17: [resetScanner] clears the number, the flag, the error, the last
    payload, the message and the hand-off mark, stops the scan and keeps
    the permission; the timer of the session fires no more, and a hand-off
    asked for afterwards is refused without a navigation. *)
Theorem resetScanner_back_to_idle (mounted : bool) (w : World) :
  let w' := resetScanner mounted w in
  phoneNumber w' = [] /\ scanned w' = false /\ error w' = [] /\
  lastScannedContent w' = [] /\ smsMessage w' = [] /\
  smsAttempted w' = false /\ isScanning w' = false /\
  streamRef w' = None /\ permissionState w' = permissionState w /\
  (forall id ts, scanIntervalRef w = Some id -> id <> 0%N ->
                 run id ts w' = w') /\
  (forall env, navigations (trace (sendSms env w'))
               = navigations (trace w')).
Proof.
  cbv zeta. unfold resetScanner. cbv zeta.
  set (w0 := setSmsAttempted false
               (setSmsMessage []
                  (setLastScannedContent []
                     (setError [] (setScanned false (setPhoneNumber [] w)))))).
  destruct (stopScanning_frame mounted w0)
    as (H1 & H2 & H3 & H4 & H5 & H6 & H7 & H8 & H9).
  rewrite H1, H2, H3, H4, H6, H7, H9.
  do 6 (split; [reflexivity|]).
  split; [apply stopScanning_isScanning|].
  split; [apply stopScanning_streamRef|].
  split; [reflexivity|]. split.
  - intros id ts Hid Hz. apply run_cleared.
    rewrite stopScanning_timers.
    change (scanIntervalRef w0) with (scanIntervalRef w).
    rewrite Hid. apply N.eqb_neq in Hz. rewrite Hz. apply not_In_cleared.
  - intros env. rewrite sendSms_invalid_phone by (rewrite H1; reflexivity).
    fields. rewrite !navigations_app. cbn [navigations flat_map app].
    rewrite !app_nil_r. reflexivity.
Qed.

(** ** The user agent *)

Lemma ci_prefix_spec ic cs :
  forall s,
    ci_prefix ic cs s = true <->
    exists mid post,
      s = mid ++ post /\
      map (canonicalize ic) mid = map (canonicalize ic) cs.
Proof.
  induction cs as [|c cs IH]; intros s.
  - split; [|reflexivity]. intros _. exists [], s. auto.
  - destruct s as [|x s]; cbn [ci_prefix].
    + split; [discriminate|]. intros (mid & post & Hs & Hm).
      destruct mid; [discriminate Hm | discriminate Hs].
    + rewrite andb_true_iff, N.eqb_eq, IH. split.
      * intros (Hc & mid & post & -> & Hm). exists (x :: mid), post.
        split; [reflexivity|]. cbn [map]. congruence.
      * intros (mid & post & Hs & Hm). destruct mid as [|y mid];
          [discriminate Hm|].
        cbn [map app] in Hs, Hm. injection Hs as <- ->.
        injection Hm as Hc Hm. split; [congruence|]. eauto.
Qed.

Lemma regex_test_spec ic r s :
  regex_test ic r s = true <->
  exists pre post, s = pre ++ post /\ exec_at ic r post <> None.
Proof.
  induction s as [|x s IH]; cbn [regex_test].
  - destruct (exec_at ic r []) eqn:E.
    + split; [|reflexivity]. intros _. exists [], []. rewrite E.
      split; [reflexivity | discriminate].
    + split; [discriminate|]. intros (pre & post & Hs & Hm).
      symmetry in Hs. apply app_eq_nil in Hs. destruct Hs as [_ ->].
      congruence.
  - destruct (exec_at ic r (x :: s)) eqn:E.
    + split; [|reflexivity]. intros _. exists [], (x :: s). rewrite E.
      split; [reflexivity | discriminate].
    + rewrite IH. split.
      * intros (pre & post & -> & Hm). exists (x :: pre), post. auto.
      * intros (pre & post & Hs & Hm). destruct pre as [|y pre].
        -- cbn [app] in Hs. subst post. congruence.
        -- injection Hs as <- ->. eauto.
Qed.

Lemma exec_mobile s :
  exec_at true UserAgent.pat_mobile s <> None <->
  exists kw, In kw UserAgent.keywords /\ ci_prefix true kw s = true.
Proof.
  unfold exec_at, UserAgent.pat_mobile, lit, UserAgent.keywords.
  cbn [bt]. rewrite !bt_literal. split.
  - intros H.
    repeat match type of H with
    | context [if ci_prefix true ?k s then _ else _] =>
      let E := fresh "E" in
      destruct (ci_prefix true k s) eqn:E;
      [exists k; split; [cbn [In]; tauto | exact E]|]
    end.
    congruence.
  - intros (kw & Hin & Hk). cbn [In] in Hin.
    repeat (destruct Hin as [<-|Hin];
            [rewrite Hk;
             repeat match goal with
             | |- context [if ci_prefix true ?k s then _ else _] =>
               destruct (ci_prefix true k s)
             end; discriminate|]).
    contradiction.
Qed.

(** X18: [isMobileDevice] holds exactly of the user agents in which one of
    Android, webOS, iPhone, iPad, iPod, BlackBerry, IEMobile and
    Opera Mini occurs, the case of the ASCII letters apart. *)
Theorem isMobileDevice_keywords (userAgent : jsstring) :
  UserAgent.isMobileDevice userAgent = true <->
  exists kw pre mid post,
    In kw UserAgent.keywords /\ userAgent = pre ++ mid ++ post /\
    map (canonicalize true) mid = map (canonicalize true) kw.
Proof.
  unfold UserAgent.isMobileDevice. rewrite regex_test_spec. split.
  - intros (pre & post & -> & H). apply exec_mobile in H.
    destruct H as (kw & Hin & Hk). apply ci_prefix_spec in Hk.
    destruct Hk as (mid & post' & -> & Hm). exists kw, pre, mid, post'.
    auto.
  - intros (kw & pre & mid & post & Hin & -> & Hm).
    exists pre, (mid ++ post). split; [reflexivity|].
    apply exec_mobile. exists kw. split; [exact Hin|].
    apply ci_prefix_spec. eauto.
Qed.

Example mobile_user_agents :
  UserAgent.isMobileDevice
    (js "Mozilla/5.0 (iPhone; CPU iPhone OS 16_0 like Mac OS X)") = true /\
  UserAgent.isMobileDevice
    (js "Mozilla/5.0 (Linux; ANDROID 13) Mobile") = true /\
  UserAgent.isMobileDevice
    (js "Mozilla/5.0 (X11; Linux x86_64) Firefox/120.0") = false.
Proof. vm_compute. auto. Qed.

(** ** Polling without a result *)

Lemma poll_decodes id st t w :
  polling id st w -> tick_result t = None ->
  decodes (trace (poll id t w))
  = decodes (trace w) ++ (if ready t then [dontInvert] else []) /\
  stopped (trace (poll id t w)) = stopped (trace w) /\
  lastScannedContent (poll id t w)
  = match decoded t with
    | Some data =>
      if ready t && truthy data then data else lastScannedContent w
    | None => lastScannedContent w
    end.
Proof.
  intros (_ & _ & Hin & _) Hr. unfold poll.
  rewrite (proj2 (existsb_eqb_In id (timers w)) Hin).
  unfold scanVideoFrame, tick_result in *. cbv zeta.
  destruct (ready t); cbn [negb andb].
  - destruct (decoded t) as [data|].
    + destruct (truthy data).
      * rewrite Hr. fields. rewrite !decodes_app, !stopped_app.
        cbn [decodes stopped flat_map app]. rewrite !app_nil_r. auto.
      * fields. rewrite !decodes_app, !stopped_app.
        cbn [decodes stopped flat_map app]. rewrite !app_nil_r. auto.
    + fields. rewrite !decodes_app, !stopped_app.
      cbn [decodes stopped flat_map app]. rewrite !app_nil_r. auto.
  - rewrite app_nil_r. destruct (decoded t); auto.
Qed.

(** X19: as long as no payload validates, a polling session stays as it
    is: the timer and the stream are kept, no track is stopped, nothing is
    reported, and the decoder is called once, without inversion, at every
    tick that finds the video ready and at no other. *)
Theorem polling_without_result (id : N) (st : MediaStream)
        (ts : list Tick) (w : World) :
  polling id st w ->
  Forall (fun t => tick_result t = None) ts ->
  polling id st (run id ts w) /\
  found_reports (trace (run id ts w)) = found_reports (trace w) /\
  stopped (trace (run id ts w)) = stopped (trace w) /\
  decodes (trace (run id ts w))
  = decodes (trace w)
    ++ repeat dontInvert (length (filter ready ts)).
Proof.
  intros Hp Hts. revert w Hp.
  induction Hts as [|t ts Ht _ IH]; intros w Hp.
  - cbn. rewrite app_nil_r. auto.
  - destruct (poll_nothing id st t w Hp Ht) as [Hp' Hf].
    destruct (poll_decodes id st t w Hp Ht) as (Hd & Hs & _).
    destruct (IH _ Hp') as (Hp'' & Hf' & Hs' & Hd').
    change (run id (t :: ts) w) with (run id ts (poll id t w)).
    rewrite Hf', Hf, Hs', Hs, Hd', Hd. repeat split; try apply Hp''.
    cbn [filter]. destruct (ready t); cbn [length repeat];
      rewrite <- app_assoc; reflexivity.
Qed.

Lemma polling_without_result_witness :
  decodes
    (trace (run 1%N [mkTick false None; mkTick true (Some (js "hello"));
                     mkTick true None] started))
  = decodes (trace started)
    ++ repeat dontInvert
         (length (filter ready [mkTick false None;
                                mkTick true (Some (js "hello"));
                                mkTick true None])).
Proof.
  assert (Hp : polling 1%N 7%N started).
  { unfold polling. simpl. repeat split; auto. discriminate. }
  assert (Hts : Forall (fun t => tick_result t = None)
                  [mkTick false None; mkTick true (Some (js "hello"));
                   mkTick true None]).
  { repeat constructor. }
  exact (proj2 (proj2 (proj2
           (polling_without_result 1%N 7%N _ started Hp Hts)))).
Defined.

(** X20: on a desktop user agent the hand-off is not held back: with a
    stored number, a message that is not blank and can be encoded, and a
    navigation that does not throw, [sendSms] requests the navigation and
    marks the attempt; the error then holds the desktop warning, and
    nothing on a mobile user agent. *)
Theorem sendSms_desktop_advisory (env : SmsEnv) (w : World)
        (body : jsstring) :
  phoneNumber w <> [] -> 10 <= length (phoneNumber w) ->
  truthy (trim (smsMessage w)) = true ->
  encodeURIComponent (smsMessage w) = Some body ->
  hrefThrows env = false ->
  let w' := sendSms env w in
  smsAttempted w' = true /\
  navigations (trace w') =
    navigations (trace w) ++ [smsLink (phoneNumber w) body] /\
  error w' = if isMobileDevice env then [] else warnDesktop.
Proof.
  intros Hne Hl Ht He Hh. cbv zeta.
  rewrite (sendSms_valid_phone env w Hne Hl). cbv zeta.
  rewrite Ht, He, Hh. cbn [negb].
  destruct (isMobileDevice env); fields; rewrite !navigations_app;
    cbn [navigations flat_map app]; rewrite ?app_nil_r;
    repeat split; reflexivity.
Qed.

Lemma sendSms_desktop_advisory_witness :
  error (sendSms {| isMobileDevice := false; hrefThrows := false;
                    uriErrorMessage := js "URI malformed" |}
           (composed (js "on my way"))) = warnDesktop.
Proof.
  refine (proj2 (proj2 (sendSms_desktop_advisory
            {| isMobileDevice := false; hrefThrows := false;
               uriErrorMessage := js "URI malformed" |}
            (composed (js "on my way")) (js "on%20my%20way") _ _ _ _ _))).
  - discriminate.
  - vm_compute. lia.
  - vm_compute. reflexivity.
  - vm_compute. reflexivity.
  - reflexivity.
Defined.

(** X21: an uploaded image and a camera frame that carry the same payload
    store the same phone number and set the same flag: both go through
    [extractPhoneNumber]. *)
Theorem upload_same_extraction (data : jsstring) (f : File) (w : World) :
  truthy data = true ->
  phoneNumber (processFileUpload (Loaded (Some data)) f w)
  = phoneNumber (scanVideoFrame (mkTick true (Some data)) w) /\
  scanned (processFileUpload (Loaded (Some data)) f w)
  = scanned (scanVideoFrame (mkTick true (Some data)) w) /\
  lastScannedContent (processFileUpload (Loaded (Some data)) f w) = data /\
  lastScannedContent (scanVideoFrame (mkTick true (Some data)) w) = data.
Proof.
  intros Ht. unfold processFileUpload, scanVideoFrame. cbv zeta.
  cbn [ready decoded negb]. rewrite Ht.
  destruct (extractPhoneNumber data) as [p|];
    [destruct (truthy p)|]; try (repeat split; reflexivity).
  destruct (stopScanning_frame true
              (setScanned true
                 (setPhoneNumber p
                    (setLastScannedContent data (log (Decode dontInvert) w)))))
    as (Hp & Hs & _ & _ & _ & Hl & _).
  rewrite Hp, Hs, Hl. repeat split; reflexivity.
Qed.

Lemma upload_same_extraction_witness :
  phoneNumber (processFileUpload (Loaded (Some (js "tel:+1-202-555-0172")))
                 (mkFile (js "qr.png") (js "image/png")) initial)
  = phoneNumber (scanVideoFrame
                   (mkTick true (Some (js "tel:+1-202-555-0172"))) initial).
Proof.
  exact (proj1 (upload_same_extraction (js "tel:+1-202-555-0172")
                  (mkFile (js "qr.png") (js "image/png")) initial eq_refl)).
Defined.
